(** * Screening-test scoring and answer validation of the healmymind backend

    A shallow embedding of
    - [calculate_test_score]   (healmymind/utils.py),
    - [validate_test_answers]  (healmymind/validators.py),
    - [SubmitTestSerializer.validate_answers] (tests/serializers.py),
    over the data model of tests/models.py, followed by the properties the
    specification states about them. *)

From stdpp Require Import base option list gmap strings pretty sorting.
From Stdlib Require Import ZArith Lia Ascii.

Open Scope Z_scope.

(** ** Python values, exceptions and dictionaries *)

(** The values stored in the dictionaries of [calculate_test_score]:
    integers (unbounded, as Python's [int]) and strings. *)
Inductive pyval : Type :=
  | VInt (z : Z)
  | VStr (s : string).

Global Instance pyval_eq_dec : EqDecision pyval.
Proof. solve_decision. Defined.

(** The exceptions the modelled expressions can raise. *)
Inductive exn : Type :=
  | KeyError (k : string)
  | TypeError.

Global Instance exn_eq_dec : EqDecision exn.
Proof. solve_decision. Defined.

(** A computation that returns an [A] or raises. *)
Definition py (A : Type) : Type := exn + A.

Global Instance py_ret : MRet py := λ A x, inr x.
Global Instance py_bind : MBind py := λ A B f m,
  match m with
  | inl e => inl e
  | inr x => f x
  end.

(** A dictionary with string keys, such as [{'min': 0, 'max': 4, ...}]. *)
Abbreviation dict := (gmap string pyval).

(** [d[k]]: a subscript on a dictionary raises [KeyError] on a missing key. *)
Definition getitem (d : dict) (k : string) : py pyval :=
  match d !! k with
  | Some v => inr v
  | None => inl (KeyError k)
  end.

(** [v <= n] and [n <= v] for an integer [n]: comparing a string with an
    integer raises [TypeError]. *)
Definition value_le_int (v : pyval) (n : Z) : py bool :=
  match v with
  | VInt x => inr (bool_decide (x ≤ n))
  | VStr _ => inl TypeError
  end.

Definition int_le_value (n : Z) (v : pyval) : py bool :=
  match v with
  | VInt x => inr (bool_decide (n ≤ x))
  | VStr _ => inl TypeError
  end.

(** ** healmymind/utils.py: [calculate_test_score] *)

(** The answers of a submission: a Python [dict] from question identifier to
    integer answer value ([Dict[str, int]]), kept as the list of its items in
    iteration order.  The keys of a [dict] are pairwise distinct; statements
    that depend on it assume [NoDup] of the keys. *)
Abbreviation answers_t := (list (string * Z)).

(** [sum(answers.values())]: starts at [0] and adds the values in order. *)
Definition sum_values (answers : answers_t) : Z :=
  foldl Z.add 0 (answers.*2).

Definition range_dict (lo hi : Z) (sev : string) : dict :=
  {[ "min" := VInt lo; "max" := VInt hi; "severity" := VStr sev ]}.

Definition PHQ9_ranges : list dict :=
  [ range_dict 0 4 "MINIMAL";
    range_dict 5 9 "MILD";
    range_dict 10 14 "MODERATE";
    range_dict 15 27 "SEVERE" ].

Definition GAD7_ranges : list dict :=
  [ range_dict 0 4 "MINIMAL";
    range_dict 5 9 "MILD";
    range_dict 10 14 "MODERATE";
    range_dict 15 21 "SEVERE" ].

(** The table [scoring_ranges] local to [calculate_test_score]. *)
Definition scoring_ranges : gmap string (list dict) :=
  {[ "PHQ9" := PHQ9_ranges; "GAD7" := GAD7_ranges ]}.

(** The [for range_info in ranges] loop: [severity] keeps its initial value
    unless a range matches, in which case the loop breaks with that range's
    severity.  The chained comparison [a <= t <= b] evaluates [b] only when
    [a <= t] holds. *)
Fixpoint resolve_severity (ranges : list dict) (total_score : Z)
    (severity : pyval) : py pyval :=
  match ranges with
  | [] => mret severity
  | range_info :: rest =>
      lo ← getitem range_info "min";
      above ← value_le_int lo total_score;
      if above : bool then
        hi ← getitem range_info "max";
        below ← int_le_value total_score hi;
        if below : bool then getitem range_info "severity"
        else resolve_severity rest total_score severity
      else resolve_severity rest total_score severity
  end.

Definition calculate_test_score (answers : answers_t) (test_type : string)
    : py dict :=
  let total_score := sum_values answers in
  let ranges := default [] (scoring_ranges !! test_type) in
  severity ← resolve_severity ranges total_score (VStr "UNKNOWN");
  mret ({[ "score" := VInt total_score; "severity" := severity ]} : dict).

(** ** tests/models.py: the data model *)

(** [Test.TEST_TYPES]: the screening instruments the data model supports. *)
Definition TEST_TYPES : list (string * string) :=
  [ ("PHQ9", "Depression Screening (PHQ-9)");
    ("GAD7", "Anxiety Screening (GAD-7)");
    ("PCL5", "PTSD Screening (PCL-5)") ].

(** [TestResult.SEVERITY_LEVELS]. *)
Definition SEVERITY_LEVELS : list (string * string) :=
  [ ("MINIMAL", "Minimal");
    ("MILD", "Mild");
    ("MODERATE", "Moderate");
    ("SEVERE", "Severe") ].

(** The rows of [Option], [Question], [ScoringRange] and [Test], with the
    fields the modelled functions read.  [q_id] is the integer primary key of
    a question. *)
Record Option : Type := {
  opt_value : Z;
  opt_order : Z
}.

Record Question : Type := {
  q_id : Z;
  q_order : Z;
  q_options : list Option
}.

Record ScoringRange : Type := {
  min_score : Z;
  max_score : Z;
  severity : string
}.

Record Test : Type := {
  test_type : string;
  questions : list Question;
  test_scoring_ranges : list ScoringRange
}.

(** Python's [str] on an integer primary key: its decimal notation. *)
Definition str (n : Z) : string := pretty n.

Global Instance str_inj : Inj (=) (=) str.
Proof. intros x y H. unfold str in H. by apply (inj pretty) in H. Qed.

(** ** healmymind/validators.py: [validate_test_answers] *)

(** Django's [ValidationError(message, code=..., params=...)]. *)
Record ValidationError : Type := {
  message : string;
  code : string;
  params : list (string * string)
}.

Global Instance ValidationError_eq_dec : EqDecision ValidationError.
Proof. solve_decision. Defined.

Definition incomplete_answers : ValidationError :=
  {| message := "All questions must be answered.";
     code := "incomplete_answers";
     params := [] |}.

Definition invalid_answer (k : string) : ValidationError :=
  {| message := "Invalid answer value for question %(q_id)s.";
     code := "invalid_answer";
     params := [("q_id", k)] |}.

(** [next((q for q in questions if str(q['id']) == q_id), None)]. *)
Definition next_question (questions : list Question) (k : string)
    : option Question :=
  snd <$> list_find (λ q, str (q_id q) = k) questions.

(** The loop [for q_id, answer in answers.items()]: it raises at the first
    item whose value is not an option value of the question found for its
    key.  A question row is never falsy, so [if question] only excludes
    [None]. *)
Fixpoint check_answer_values (items : answers_t) (questions : list Question)
    : ValidationError + unit :=
  match items with
  | [] => inr ()
  | (k, answer) :: rest =>
      match next_question questions k with
      | Some question =>
          let valid_values := opt_value <$> q_options question in
          if decide (answer ∈ valid_values)
          then check_answer_values rest questions
          else inl (invalid_answer k)
      | None => check_answer_values rest questions
      end
  end.

Definition validate_test_answers (answers : answers_t)
    (questions : list Question) : ValidationError + unit :=
  let question_ids : gset string :=
    list_to_set ((λ q, str (q_id q)) <$> questions) in
  let answer_ids : gset string := list_to_set (answers.*1) in
  if decide (question_ids ≠ answer_ids) then inl incomplete_answers
  else check_answer_values answers questions.

(** ** tests/serializers.py: [SubmitTestSerializer.validate_answers] *)

(** [serializers.ValidationError(detail)]. *)
Inductive SerializerError : Type :=
  | SerializerValidationError (detail : string).

Global Instance SerializerError_eq_dec : EqDecision SerializerError.
Proof. solve_decision. Defined.

(** [test] is [self.context.get('test')]: [None] when the context has no
    test.  The keys of a JSON object are strings, on which [str] is the
    identity. *)
Definition validate_answers (test : option Test) (value : answers_t)
    : SerializerError + answers_t :=
  match test with
  | None => inl (SerializerValidationError "Test not found")
  | Some test =>
      let question_ids : gset string :=
        list_to_set ((λ q, str (q_id q)) <$> questions test) in
      let answer_ids : gset string := list_to_set (value.*1) in
      if decide (question_ids ≠ answer_ids)
      then inl (SerializerValidationError "All questions must be answered")
      else inr value
  end.

(** ** Sample data: the PHQ-9 instrument of scripts/seed.py *)

Definition likert_options : list Option :=
  [ {| opt_value := 0; opt_order := 1 |};
    {| opt_value := 1; opt_order := 2 |};
    {| opt_value := 2; opt_order := 3 |};
    {| opt_value := 3; opt_order := 4 |} ].

Definition likert_question (i : Z) : Question :=
  {| q_id := i; q_order := i; q_options := likert_options |}.

Definition phq9_test : Test :=
  {| test_type := "PHQ9";
     questions := likert_question <$> [1; 2; 3; 4; 5; 6; 7; 8; 9];
     test_scoring_ranges :=
       [ {| min_score := 0; max_score := 4; severity := "MINIMAL" |};
         {| min_score := 5; max_score := 9; severity := "MILD" |};
         {| min_score := 10; max_score := 14; severity := "MODERATE" |};
         {| min_score := 15; max_score := 27; severity := "SEVERE" |} ] |}.

(** A submission giving the same value to the questions [1..n]. *)
Definition uniform_answers (ids : list Z) (v : Z) : answers_t :=
  (λ i, (str i, v)) <$> ids.

(** ** Predicates used in the statements *)

(** [min <= total <= max] on a range dictionary, both ends inclusive. *)
Definition range_matches (range_info : dict) (total : Z) : bool :=
  match range_info !! "min", range_info !! "max" with
  | Some (VInt lo), Some (VInt hi) => bool_decide (lo ≤ total ≤ hi)
  | _, _ => false
  end.

(** A range dictionary with integer bounds and a string severity. *)
Definition range_well_formed (range_info : dict) : Prop :=
  ∃ lo hi sev,
    range_info !! "min" = Some (VInt lo) ∧
    range_info !! "max" = Some (VInt hi) ∧
    range_info !! "severity" = Some (VStr sev).

(** The ranges [calculate_test_score] scans for a test type. *)
Definition ranges_for (test_type : string) : list dict :=
  default [] (scoring_ranges !! test_type).

(** [a] comes before [b] in ascending order of the minimum bound. *)
Definition min_lt (a b : dict) : Prop :=
  ∃ x y, a !! "min" = Some (VInt x) ∧ b !! "min" = Some (VInt y) ∧ x < y.

(** The result dictionary [{'score': ..., 'severity': ...}]. *)
Definition result (total : Z) (sev : pyval) : dict :=
  {[ "score" := VInt total; "severity" := sev ]}.

(** The plain sum of a list of integers. *)
Fixpoint plain_sum (vs : list Z) : Z :=
  match vs with
  | [] => 0
  | v :: vs' => v + plain_sum vs'
  end.

(** [a] lies entirely below [b]: the maximum of [a] is below the minimum
    of [b]. *)
Definition range_before (a b : dict) : Prop :=
  ∃ x y, a !! "max" = Some (VInt x) ∧ b !! "min" = Some (VInt y) ∧ x < y.

(** The bounds of a range are in order. *)
Definition range_ordered (d : dict) : Prop :=
  ∀ lo hi, d !! "min" = Some (VInt lo) → d !! "max" = Some (VInt hi) → lo ≤ hi.

(** [{str(q['id']) for q in questions}] and [set(answers.keys())]. *)
Definition question_id_set (qs : list Question) : gset string :=
  list_to_set ((λ q, str (q_id q)) <$> qs).

Definition answer_id_set (answers : answers_t) : gset string :=
  list_to_set (answers.*1).

(** [[opt['value'] for opt in question['options']]]. *)
Definition valid_values (q : Question) : list Z :=
  opt_value <$> q_options q.

(** The ways a question identifier can be violated by a submission. *)
Definition missing (answers : answers_t) (qs : list Question) (k : string)
    : Prop :=
  k ∈ question_id_set qs ∧ k ∉ answer_id_set answers.

Definition extra (answers : answers_t) (qs : list Question) (k : string)
    : Prop :=
  k ∈ answer_id_set answers ∧ k ∉ question_id_set qs.

Definition invalid_value (answers : answers_t) (qs : list Question)
    (k : string) : Prop :=
  ∃ v q, (k, v) ∈ answers ∧ next_question qs k = Some q ∧
         v ∉ valid_values q.

Definition violated (answers : answers_t) (qs : list Question) (k : string)
    : Prop :=
  missing answers qs k ∨ extra answers qs k ∨ invalid_value answers qs k.

(** The error carries the question identifier [k]. *)
Definition names (e : ValidationError) (k : string) : Prop :=
  k ∈ (params e).*2.

(** A failed validation names every violated question. *)
Definition reports_every_violation : Prop :=
  ∀ (answers : answers_t) (qs : list Question) (e : ValidationError),
    validate_test_answers answers qs = inl e →
    ∀ k, violated answers qs k → names e k.

(** The least and the greatest of a list of values ([0] on the empty
    list). *)
Definition min_value (vs : list Z) : Z :=
  match vs with
  | [] => 0
  | v :: vs' => foldr Z.min v vs'
  end.

Definition max_value (vs : list Z) : Z :=
  match vs with
  | [] => 0
  | v :: vs' => foldr Z.max v vs'
  end.

(** The minimum and the maximum achievable sum of option values. *)
Definition min_possible (qs : list Question) : Z :=
  plain_sum ((λ q, min_value (valid_values q)) <$> qs).

Definition max_possible (qs : list Question) : Z :=
  plain_sum ((λ q, max_value (valid_values q)) <$> qs).

(** The authored ranges of a test are contiguous: each range starts right
    after the one before it. *)
Fixpoint authored_contiguous (rs : list ScoringRange) : bool :=
  match rs with
  | r1 :: rest =>
      match rest with
      | r2 :: _ =>
          bool_decide (min_score r2 = max_score r1 + 1) &&
          authored_contiguous rest
      | [] => true
      end
  | [] => true
  end.

(** Every score of [[lo, hi]] lies in one of the authored ranges. *)
Definition authored_cover (rs : list ScoringRange) (lo hi : Z) : bool :=
  forallb
    (λ s, existsb (λ r, bool_decide (min_score r ≤ s ≤ max_score r)) rs)
    (seqZ lo (hi - lo + 1)).

(** Every score of [[lo, hi]] lies in one of the hard-coded ranges. *)
Definition table_cover (ranges : list dict) (lo hi : Z) : bool :=
  forallb (λ s, existsb (λ d, range_matches d s) ranges)
          (seqZ lo (hi - lo + 1)).

(** With contiguous authored ranges covering all achievable totals, a
    validated submission is never scored ['UNKNOWN']. *)
Definition authored_ranges_exclude_unknown : Prop :=
  ∀ (t : Test) (answers : answers_t),
    NoDup (q_id <$> questions t) →
    NoDup (answers.*1) →
    authored_contiguous (test_scoring_ranges t) = true →
    authored_cover (test_scoring_ranges t)
      (min_possible (questions t)) (max_possible (questions t)) = true →
    validate_test_answers answers (questions t) = inr () →
    ∀ r, calculate_test_score answers (test_type t) = inr r →
         r !! "severity" ≠ Some (VStr "UNKNOWN").

(** A value above every option value of a question. *)
Definition out_of_domain (q : Question) : Z :=
  1 + foldr Z.max 0 (valid_values q).

(** The submission that answers every question out of its domain. *)
Definition out_of_domain_answers (qs : list Question) : answers_t :=
  (λ q, (str (q_id q), out_of_domain q)) <$> qs.

(** A GAD-7 typed test authored with eight questions on the 0-3 scale and
    with ranges covering the totals 0..24. *)
Definition gad7_long_test : Test :=
  {| test_type := "GAD7";
     questions := likert_question <$> [1; 2; 3; 4; 5; 6; 7; 8];
     test_scoring_ranges :=
       [ {| min_score := 0; max_score := 4; severity := "MINIMAL" |};
         {| min_score := 5; max_score := 9; severity := "MILD" |};
         {| min_score := 10; max_score := 14; severity := "MODERATE" |};
         {| min_score := 15; max_score := 24; severity := "SEVERE" |} ] |}.

(** ** Python's [re] on the patterns of healmymind/validators.py *)

(** A Python [str] as the list of its characters.  Characters are 8-bit: the
    model covers the strings of the Latin-1 range, in which the decimal
    digits [\d] are exactly [0-9]. *)
Abbreviation pystr := (list ascii).

Definition chars (s : string) : pystr := String.list_ascii_of_string s.

(** The newline character. *)
Definition newline : ascii := "010"%char.

(** An item of a character class [[...]]: one character or a range. *)
Inductive class_item : Type :=
  | CChar (c : ascii)
  | CRange (lo hi : ascii).

Definition in_item (c : ascii) (i : class_item) : bool :=
  match i with
  | CChar d => Ascii.eqb c d
  | CRange lo hi =>
      (nat_of_ascii lo <=? nat_of_ascii c)%nat &&
      (nat_of_ascii c <=? nat_of_ascii hi)%nat
  end.

Definition in_class (cls : list class_item) (c : ascii) : bool :=
  existsb (in_item c) cls.

(** The regular expressions the validators use: a character class (also a
    literal or [\d]), [r?], [r{m,n}], concatenation, [^] and [$]. *)
Inductive regex : Type :=
  | Class (cls : list class_item)
  | Opt (r : regex)
  | Repeat (r : regex) (m n : nat)
  | Seq (r1 r2 : regex)
  | StartAnchor
  | EndAnchor.

(** [$] without [re.MULTILINE]: the end of the string, or just before a
    newline that ends the string. *)
Definition at_end (s : pystr) : bool :=
  match s with
  | [] => true
  | [c] => Ascii.eqb c newline
  | _ => false
  end.

(** [r{m,n}] by backtracking: between [m] and [n] iterations of [step], then
    the continuation [k]. *)
Fixpoint re_repeat (step : nat → pystr → (nat → pystr → bool) → bool)
    (m n : nat) (pos : nat) (s : pystr) (k : nat → pystr → bool) : bool :=
  match n with
  | O => (m =? 0)%nat && k pos s
  | S n' =>
      step pos s (λ pos' s', re_repeat step (pred m) n' pos' s' k)
      || ((m =? 0)%nat && k pos s)
  end.

(** A backtracking matcher: [r] matches at position [pos], where [s] is the
    rest of the string, and the continuation [k] accepts what follows. *)
Fixpoint re_match_at (r : regex) (pos : nat) (s : pystr)
    (k : nat → pystr → bool) : bool :=
  match r with
  | Class cls =>
      match s with
      | c :: s' => in_class cls c && k (S pos) s'
      | [] => false
      end
  | Opt r => re_match_at r pos s k || k pos s
  | Repeat r m n => re_repeat (re_match_at r) m n pos s k
  | Seq r1 r2 => re_match_at r1 pos s (λ pos' s', re_match_at r2 pos' s' k)
  | StartAnchor => (pos =? 0)%nat && k pos s
  | EndAnchor => at_end s && k pos s
  end.

(** [re.match(pattern, s)] is not [None]: the pattern matches at the start. *)
Definition re_match (pattern : regex) (s : pystr) : bool :=
  re_match_at pattern 0 s (λ _ _, true).

(** [re.search(pattern, s)] is not [None]: the pattern matches at some
    position. *)
Fixpoint re_search_from (pattern : regex) (pos : nat) (s : pystr) : bool :=
  re_match_at pattern pos s (λ _ _, true)
  || match s with
     | _ :: s' => re_search_from pattern (S pos) s'
     | [] => false
     end.

Definition re_search (pattern : regex) (s : pystr) : bool :=
  re_search_from pattern 0 s.

(** The character classes of the patterns. *)
Definition upper_class : list class_item := [CRange "A" "Z"].
Definition lower_class : list class_item := [CRange "a" "z"].
Definition digit_class : list class_item := [CRange "0" "9"].

(** The class of special characters of [validate_password_strength], in the
    order of the source; the double quote is the character 034. *)
Definition special_class : list class_item :=
  [ CChar "!"; CChar "@"; CChar "#"; CChar "$"; CChar "%"; CChar "^";
    CChar "&"; CChar "*"; CChar "("; CChar ")"; CChar ","; CChar ".";
    CChar "?"; CChar "034"; CChar ":"; CChar "{"; CChar "}"; CChar "|";
    CChar "<"; CChar ">" ]%char.

(** [[a-zA-Z0-9_]] and [[a-zA-Z0-9-]]. *)
Definition username_class : list class_item :=
  [CRange "a" "z"; CRange "A" "Z"; CRange "0" "9"; CChar "_"]%char.

Definition tag_class : list class_item :=
  [CRange "a" "z"; CRange "A" "Z"; CRange "0" "9"; CChar "-"]%char.


(** [^[a-zA-Z0-9_]{3,30}$]. *)
Definition username_pattern : regex :=
  Seq StartAnchor (Seq (Repeat (Class username_class) 3 30) EndAnchor).

(** [^[a-zA-Z0-9-]{2,30}$]. *)
Definition tag_pattern : regex :=
  Seq StartAnchor (Seq (Repeat (Class tag_class) 2 30) EndAnchor).

(** The characters of a string all belong to a class. *)
Definition all_in (cls : list class_item) (s : pystr) : Prop :=
  Forall (λ c, in_class cls c = true) s.

(** Some character of a string belongs to a class. *)
Definition some_in (cls : list class_item) (s : pystr) : Prop :=
  Exists (λ c, in_class cls c = true) s.

(** ** healmymind/validators.py: the string validators *)

Definition validation_error (msg c : string) : ValidationError :=
  {| message := msg; code := c; params := [] |}.

Definition validate_password_strength (password : pystr)
    : ValidationError + unit :=
  if decide (length password < 8)%nat then
    inl (validation_error "Password must be at least 8 characters long."
           "password_too_short")
  else if negb (re_search (Class upper_class) password) then
    inl (validation_error
           "Password must contain at least one uppercase letter."
           "password_no_upper")
  else if negb (re_search (Class lower_class) password) then
    inl (validation_error
           "Password must contain at least one lowercase letter."
           "password_no_lower")
  else if negb (re_search (Class digit_class) password) then
    inl (validation_error "Password must contain at least one number."
           "password_no_number")
  else if negb (re_search (Class special_class) password) then
    inl (validation_error
           "Password must contain at least one special character."
           "password_no_special")
  else inr ().


Definition validate_username (username : pystr) : ValidationError + unit :=
  if negb (re_match username_pattern username) then
    inl (validation_error
           "Username must be 3-30 characters long and contain only letters, numbers, and underscores."
           "invalid_username")
  else inr ().

(** The loop [for tag in tags] of [validate_tags]. *)
Fixpoint check_tags (tags : list pystr) : ValidationError + unit :=
  match tags with
  | [] => inr ()
  | tag :: rest =>
      if negb (re_match tag_pattern tag) then
        inl (validation_error
               "Invalid tag format. Tags must be 2-30 characters and contain only letters, numbers, and hyphens."
               "invalid_tag")
      else check_tags rest
  end.

Definition validate_tags (tags : list pystr) : ValidationError + unit :=
  if decide (5 < length tags)%nat then
    inl (validation_error "Maximum 5 tags allowed." "too_many_tags")
  else check_tags tags.

(** The tags [validate_tags] lets through one by one. *)
Definition tag_ok (tag : pystr) : Prop :=
  ∃ body, (tag = body ∨ tag = body ++ [newline]) ∧
          (2 ≤ length body ≤ 30)%nat ∧ all_in tag_class body.

(** ** healmymind/utils.py: [paginate_queryset] *)

(** What [paginate_queryset] can raise. *)
Inductive page_error : Type :=
  | NegativeIndexing
  | ZeroDivisionError.

Global Instance page_error_eq_dec : EqDecision page_error.
Proof. solve_decision. Defined.

(** The interface [paginate_queryset] uses of its [queryset] argument, a
    Django [QuerySet]: [count()] and slicing.  [rows] is the ordered result
    set.  Slicing with a negative bound raises, negative indexing not being
    supported; with bounds [0 <= a <= b] it gives the rows from [a] up to
    [b], as many as there are.  Other bounds depend on the database backend
    and are left open. *)
Class QuerySet (Q A : Type) : Type := {
  rows : Q → list A;
  count : Q → Z;
  getslice : Q → Z → Z → page_error + list A;
  count_rows : ∀ q, count q = Z.of_nat (length (rows q));
  getslice_negative : ∀ q a b,
    a < 0 ∨ b < 0 → getslice q a b = inl NegativeIndexing;
  getslice_rows : ∀ q a b,
    0 ≤ a ≤ b →
    getslice q a b
    = inr (take (Z.to_nat (b - a)) (drop (Z.to_nat a) (rows q)))
}.

(** The dictionary [paginate_queryset] returns. *)
Record Page (A : Type) : Type := {
  pg_items : list A;
  pg_total : Z;
  pg_page : Z;
  pg_page_size : Z;
  pg_total_pages : Z
}.

Arguments pg_items {A} _.
Arguments pg_total {A} _.
Arguments pg_page {A} _.
Arguments pg_page_size {A} _.
Arguments pg_total_pages {A} _.

(** [a // b] on Python integers: floor division, raising on [b = 0]. *)
Definition floordiv (a b : Z) : page_error + Z :=
  if decide (b = 0) then inl ZeroDivisionError else inr (a `div` b).

Definition paginate_queryset {Q A : Type} `{!QuerySet Q A}
    (queryset : Q) (page page_size : Z) : page_error + Page A :=
  let start := (page - 1) * page_size in
  let stop := start + page_size in
  let total := count queryset in
  match getslice queryset start stop with
  | inl e => inl e
  | inr items =>
      match floordiv (total + page_size - 1) page_size with
      | inl e => inl e
      | inr total_pages =>
          inr {| pg_items := items;
                 pg_total := total;
                 pg_page := page;
                 pg_page_size := page_size;
                 pg_total_pages := total_pages |}
      end
  end.

(** A query set held in memory: the list of its rows. *)
Definition list_getslice {A : Type} (l : list A) (a b : Z)
    : page_error + list A :=
  if decide (a < 0 ∨ b < 0) then inl NegativeIndexing
  else inr (take (Z.to_nat (b - a)) (drop (Z.to_nat a) l)).

Lemma list_getslice_negative {A : Type} (l : list A) (a b : Z) :
  a < 0 ∨ b < 0 → list_getslice l a b = inl NegativeIndexing.
Proof. intros H. unfold list_getslice. by rewrite decide_True. Qed.

Lemma list_getslice_rows {A : Type} (l : list A) (a b : Z) :
  0 ≤ a ≤ b →
  list_getslice l a b = inr (take (Z.to_nat (b - a)) (drop (Z.to_nat a) l)).
Proof.
  intros H. unfold list_getslice. rewrite decide_False; [done|lia].
Qed.

Global Instance list_queryset {A : Type} : QuerySet (list A) A := {|
  rows := λ l, l;
  count := λ l, Z.of_nat (length l);
  getslice := list_getslice;
  count_rows := λ l, eq_refl;
  getslice_negative := list_getslice_negative;
  getslice_rows := list_getslice_rows
|}.

(** The items of a page, empty when the call raises. *)
Definition page_items {Q A : Type} `{!QuerySet Q A}
    (queryset : Q) (page_size page : Z) : list A :=
  match paginate_queryset queryset page page_size with
  | inr r => pg_items r
  | inl _ => []
  end.

(** The index of a severity in [SEVERITY_LEVELS], from least to most
    severe. *)
Definition severity_rank (sev : string) : option nat :=
  fst <$> list_find (λ l, l.1 = sev) SEVERITY_LEVELS.

(** * Properties *)

Example score_phq9_7 :
  calculate_test_score [("1", 3); ("2", 3); ("3", 1)] "PHQ9"
  = inr {[ "score" := VInt 7; "severity" := VStr "MILD" ]}.
Proof. vm_compute. reflexivity. Qed.

Example validate_phq9_ok :
  validate_test_answers (uniform_answers [1; 2; 3; 4; 5; 6; 7; 8; 9] 2)
    (questions phq9_test) = inr ().
Proof. vm_compute. reflexivity. Qed.

Example validate_phq9_missing :
  validate_test_answers (uniform_answers [1; 2; 3; 4; 5; 6; 7; 8] 2)
    (questions phq9_test) = inl incomplete_answers.
Proof. vm_compute. reflexivity. Qed.

Example validate_phq9_invalid :
  validate_test_answers
    (uniform_answers [1; 2; 3] 2 ++ [("4", 7)] ++ uniform_answers [5; 6; 7; 8; 9] 9)
    (questions phq9_test) = inl (invalid_answer "4").
Proof. vm_compute. reflexivity. Qed.

Example validate_answers_out_of_domain :
  validate_answers (Some phq9_test) (uniform_answers [1; 2; 3; 4; 5; 6; 7; 8; 9] 7)
  = inr (uniform_answers [1; 2; 3; 4; 5; 6; 7; 8; 9] 7).
Proof. vm_compute. reflexivity. Qed.

(** ** Lemmas on the scoring function *)

Section Scoring.

Implicit Types (answers : answers_t) (ranges : list dict) (d : dict).
Implicit Types (total lo hi : Z) (sev : pyval).

Lemma foldl_add_shift (vs : list Z) (a : Z) :
  foldl Z.add a vs = a + plain_sum vs.
Proof.
  revert a. induction vs as [|v vs IH]; intros a; simpl; [lia|].
  rewrite IH. lia.
Qed.

Lemma sum_values_plain answers : sum_values answers = plain_sum (answers.*2).
Proof. unfold sum_values. rewrite foldl_add_shift. lia. Qed.

Lemma plain_sum_perm (vs ws : list Z) : vs ≡ₚ ws → plain_sum vs = plain_sum ws.
Proof. induction 1; simpl; lia. Qed.

Lemma sum_values_perm answers answers' :
  answers ≡ₚ answers' → sum_values answers = sum_values answers'.
Proof.
  intros Hp. rewrite !sum_values_plain.
  apply plain_sum_perm. by apply fmap_Permutation.
Qed.

Lemma range_dict_well_formed lo hi (s : string) :
  range_well_formed (range_dict lo hi s).
Proof. exists lo, hi, s. by vm_compute. Qed.

Lemma range_dict_matches lo hi (s : string) total :
  range_matches (range_dict lo hi s) total = bool_decide (lo ≤ total ≤ hi).
Proof. reflexivity. Qed.

Lemma scoring_ranges_lookup (test_type : string) :
  scoring_ranges !! test_type =
    if decide (test_type = "PHQ9") then Some PHQ9_ranges
    else if decide (test_type = "GAD7") then Some GAD7_ranges
    else None.
Proof.
  unfold scoring_ranges.
  destruct (decide (test_type = "PHQ9")) as [->|Hp].
  - by rewrite lookup_insert_eq.
  - rewrite lookup_insert_ne by done.
    destruct (decide (test_type = "GAD7")) as [->|Hg].
    + by rewrite lookup_singleton_eq.
    + by rewrite lookup_singleton_ne.
Qed.

Lemma ranges_for_cases (test_type : string) :
  (test_type = "PHQ9" ∧ ranges_for test_type = PHQ9_ranges) ∨
  (test_type = "GAD7" ∧ ranges_for test_type = GAD7_ranges) ∨
  (test_type ≠ "PHQ9" ∧ test_type ≠ "GAD7" ∧ ranges_for test_type = []).
Proof.
  unfold ranges_for. rewrite scoring_ranges_lookup.
  repeat case_decide; naive_solver.
Qed.

Lemma ranges_for_well_formed (test_type : string) :
  Forall range_well_formed (ranges_for test_type).
Proof.
  destruct (ranges_for_cases test_type) as [[_ ->]|[[_ ->]|(_ & _ & ->)]];
    repeat constructor; apply range_dict_well_formed.
Qed.

(** One step of the loop on a well-formed range. *)
Lemma resolve_severity_step d ranges total sev :
  range_well_formed d →
  resolve_severity (d :: ranges) total sev =
    if range_matches d total
    then default (inl (KeyError "severity")) (inr <$> d !! "severity")
    else resolve_severity ranges total sev.
Proof.
  intros (lo & hi & s & Hlo & Hhi & Hs).
  unfold range_matches. simpl. unfold getitem.
  rewrite Hlo, Hhi, Hs. simpl.
  destruct (bool_decide_reflect (lo ≤ total)) as [H1|H1]; simpl.
  - destruct (bool_decide_reflect (total ≤ hi)) as [H2|H2]; simpl.
    + by rewrite bool_decide_eq_true_2 by lia.
    + by rewrite bool_decide_eq_false_2 by lia.
  - by rewrite bool_decide_eq_false_2 by lia.
Qed.

(** No range matches: the initial severity is returned. *)
Lemma resolve_severity_no_match ranges total sev :
  Forall range_well_formed ranges →
  Forall (λ d, range_matches d total = false) ranges →
  resolve_severity ranges total sev = inr sev.
Proof.
  induction 1 as [|d ranges Hd _ IH]; intros Hno; [done|].
  apply Forall_cons in Hno as [Hm Hno].
  rewrite resolve_severity_step by done. rewrite Hm. by apply IH.
Qed.

(** The first matching range decides. *)
Lemma resolve_severity_first_match pre d post total sev (s : pyval) :
  Forall range_well_formed pre →
  Forall (λ d', range_matches d' total = false) pre →
  range_well_formed d →
  range_matches d total = true →
  d !! "severity" = Some s →
  resolve_severity (pre ++ d :: post) total sev = inr s.
Proof.
  intros Hwf Hno Hd Hm Hs.
  induction Hwf as [|d' pre Hd' _ IH]; simpl app.
  - rewrite resolve_severity_step by done. by rewrite Hm, Hs.
  - apply Forall_cons in Hno as [Hm' Hno].
    rewrite resolve_severity_step by done. rewrite Hm'. by apply IH.
Qed.

(** On well-formed ranges the loop never raises: it returns the initial
    severity or the severity of one of the ranges. *)
Lemma resolve_severity_total ranges total sev :
  Forall range_well_formed ranges →
  ∃ s, resolve_severity ranges total sev = inr s ∧
       (s = sev ∨ ∃ d, d ∈ ranges ∧ d !! "severity" = Some s).
Proof.
  induction 1 as [|d ranges Hd _ IH]; [by exists sev; auto|].
  rewrite resolve_severity_step by done.
  destruct (range_matches d total).
  - destruct Hd as (lo & hi & s & _ & _ & Hs).
    exists (VStr s). rewrite Hs. split; [done|].
    right. exists d. split; [apply list_elem_of_here|done].
  - destruct IH as (s & Hr & Hs). exists s. split; [done|].
    destruct Hs as [->|(d' & Hin & Hs)]; [by left|].
    right. exists d'. split; [by apply list_elem_of_further|done].
Qed.

Lemma calculate_test_score_unfold answers (test_type : string) :
  calculate_test_score answers test_type =
    (s ← resolve_severity (ranges_for test_type) (sum_values answers)
           (VStr "UNKNOWN");
     mret (result (sum_values answers) s)).
Proof. reflexivity. Qed.

End Scoring.

(** ** The hard-coded tables are ascending and disjoint *)

(** Closes a decidable closed goal by evaluating its decision procedure. *)
Ltac by_evaluation :=
  lazymatch goal with
  | |- ?P =>
      let dec := constr:(_ : Decision P) in
      refine (@bool_decide_unpack P dec _); vm_compute; exact I
  end.

Ltac table_cases test_type :=
  destruct (ranges_for_cases test_type) as [[? ->]|[[? ->]|(? & ? & ->)]].

Ltac by_bounds :=
  eexists _, _; split; [vm_compute; reflexivity|];
  split; [vm_compute; reflexivity|lia].

Ltac sorted_table tac :=
  repeat first
    [ apply SSorted_nil | apply SSorted_cons
    | apply Forall_nil_2 | apply Forall_cons_2 ]; tac.

Lemma ranges_for_sorted (test_type : string) :
  StronglySorted min_lt (ranges_for test_type).
Proof. table_cases test_type; sorted_table by_bounds. Qed.

Lemma ranges_for_disjoint (test_type : string) :
  StronglySorted range_before (ranges_for test_type).
Proof. table_cases test_type; sorted_table by_bounds. Qed.

Lemma ranges_for_ordered (test_type : string) :
  Forall range_ordered (ranges_for test_type).
Proof.
  table_cases test_type; sorted_table idtac;
    intros lo hi Hlo Hhi; vm_compute in Hlo, Hhi;
    injection Hlo as <-; injection Hhi as <-; lia.
Qed.

(** In an ascending disjoint table nothing before a range reaches its
    minimum. *)
Lemma disjoint_prefix_no_match (pre : list dict) d (post : list dict) lo total :
  StronglySorted range_before (pre ++ d :: post) →
  d !! "min" = Some (VInt lo) →
  lo ≤ total →
  Forall (λ d', range_matches d' total = false) pre.
Proof.
  intros Hs Hlo Hle. induction pre as [|d' pre IH]; [constructor|].
  simpl in Hs. apply StronglySorted_inv in Hs as [Hs Hall].
  constructor; [|by apply IH].
  rewrite Forall_app, Forall_cons in Hall.
  destruct Hall as (_ & (x & y & Hx & Hy & Hxy) & _).
  rewrite Hlo in Hy. injection Hy as <-.
  unfold range_matches. rewrite Hx.
  destruct (d' !! "min") as [[z|?]|]; try done.
  apply bool_decide_eq_false_2. lia.
Qed.

Lemma calculate_test_score_no_match (answers : answers_t) (test_type : string) :
  Forall (λ d, range_matches d (sum_values answers) = false)
         (ranges_for test_type) →
  calculate_test_score answers test_type
  = inr (result (sum_values answers) (VStr "UNKNOWN")).
Proof.
  intros Hno. rewrite calculate_test_score_unfold.
  rewrite resolve_severity_no_match; [done| |done].
  apply ranges_for_well_formed.
Qed.

Lemma result_score (total : Z) (sev : pyval) :
  result total sev !! "score" = Some (VInt total).
Proof. reflexivity. Qed.

Lemma result_severity (total : Z) (sev : pyval) :
  result total sev !! "severity" = Some sev.
Proof. reflexivity. Qed.

(** Every hard-coded range carries one of the severity levels of the data
    model. *)
Lemma ranges_for_severity (test_type : string) :
  Forall (λ d, ∃ sev, d !! "severity" = Some (VStr sev) ∧
                      sev ∈ SEVERITY_LEVELS.*1)
         (ranges_for test_type).
Proof.
  table_cases test_type; sorted_table idtac;
    (eexists; split; [vm_compute; reflexivity|by_evaluation]).
Qed.

(** ** Properties of [calculate_test_score] *)

(** C4: the total score is the plain integer sum of the answer values, and
    reordering the entries of the answers mapping changes neither the total
    score nor the severity. *)
Theorem C4_total_is_plain_sum_order_independent
    (answers answers' : answers_t) (test_type : string) :
  answers ≡ₚ answers' →
  (∃ sev, calculate_test_score answers test_type
          = inr (result (plain_sum (answers.*2)) sev)) ∧
  calculate_test_score answers' test_type
  = calculate_test_score answers test_type.
Proof.
  intros Hperm. split.
  - rewrite calculate_test_score_unfold, <- sum_values_plain.
    destruct (resolve_severity_total (ranges_for test_type)
                (sum_values answers) (VStr "UNKNOWN")) as (s & -> & _).
    { apply ranges_for_well_formed. }
    by exists s.
  - rewrite !calculate_test_score_unfold.
    by rewrite (sum_values_perm answers answers').
Qed.

Lemma C4_witness :
  (∃ sev, calculate_test_score [("1", 3); ("2", 1)] "GAD7"
          = inr (result (plain_sum [3; 1]) sev)) ∧
  calculate_test_score [("2", 1); ("1", 3)] "GAD7"
  = calculate_test_score [("1", 3); ("2", 1)] "GAD7".
Proof.
  apply (C4_total_is_plain_sum_order_independent
           [("1", 3); ("2", 1)] [("2", 1); ("1", 3)] "GAD7").
  apply perm_swap.
Defined.

(** C5: the hard-coded ranges of a test type are listed in ascending order
    of their minimum; the severity returned is that of the first range of
    the list with [min <= total <= max], both ends inclusive; and a total
    equal to the minimum or to the maximum of a range is classified into
    that very range. *)
Theorem C5_first_inclusive_match
    (answers : answers_t) (test_type : string)
    (pre : list dict) (d : dict) (post : list dict) (lo hi total : Z) :
  ranges_for test_type = pre ++ d :: post →
  d !! "min" = Some (VInt lo) →
  d !! "max" = Some (VInt hi) →
  sum_values answers = total →
  StronglySorted min_lt (ranges_for test_type) ∧
  (Forall (λ d', range_matches d' total = false) pre →
   lo ≤ total ≤ hi →
   ∃ sev, d !! "severity" = Some sev ∧
          calculate_test_score answers test_type = inr (result total sev)) ∧
  (total = lo ∨ total = hi →
   ∃ sev, d !! "severity" = Some sev ∧
          calculate_test_score answers test_type = inr (result total sev)).
Proof.
  intros Hranges Hlo Hhi Htotal.
  pose proof (ranges_for_well_formed test_type) as Hwf.
  pose proof (ranges_for_disjoint test_type) as Hdis.
  pose proof (ranges_for_ordered test_type) as Hord.
  rewrite Hranges in Hwf, Hdis, Hord.
  apply Forall_app in Hwf as [Hwf_pre Hwf_d].
  apply Forall_cons in Hwf_d as [Hwf_d _].
  apply Forall_app in Hord as [_ Hord].
  apply Forall_cons in Hord as [Hord _].
  specialize (Hord lo hi Hlo Hhi).
  assert (Hfirst : Forall (λ d', range_matches d' total = false) pre →
                   lo ≤ total ≤ hi →
                   ∃ sev, d !! "severity" = Some sev ∧
                          calculate_test_score answers test_type
                          = inr (result total sev)).
  { intros Hno Hin.
    destruct Hwf_d as (lo' & hi' & s & Hlo' & Hhi' & Hs).
    exists (VStr s). split; [done|].
    rewrite calculate_test_score_unfold, Hranges, Htotal.
    rewrite (resolve_severity_first_match pre d post total _ (VStr s));
      try done.
    - by exists lo', hi', s.
    - unfold range_matches. rewrite Hlo, Hhi.
      by apply bool_decide_eq_true_2. }
  split; [apply ranges_for_sorted|]. split; [done|].
  intros Hedge. apply Hfirst; [|lia].
  apply (disjoint_prefix_no_match pre d post lo); [done..|lia].
Qed.

Lemma C5_witness :
  StronglySorted min_lt (ranges_for "PHQ9") ∧
  (Forall (λ d', range_matches d' 9 = false) [range_dict 0 4 "MINIMAL"] →
   5 ≤ 9 ≤ 9 →
   ∃ sev, range_dict 5 9 "MILD" !! "severity" = Some sev ∧
          calculate_test_score [("1", 3); ("2", 3); ("3", 3)] "PHQ9"
          = inr (result 9 sev)) ∧
  (9 = 5 ∨ 9 = 9 →
   ∃ sev, range_dict 5 9 "MILD" !! "severity" = Some sev ∧
          calculate_test_score [("1", 3); ("2", 3); ("3", 3)] "PHQ9"
          = inr (result 9 sev)).
Proof.
  apply (C5_first_inclusive_match
           [("1", 3); ("2", 3); ("3", 3)] "PHQ9"
           [range_dict 0 4 "MINIMAL"] (range_dict 5 9 "MILD")
           [range_dict 10 14 "MODERATE"; range_dict 15 27 "SEVERE"] 5 9 9);
    by_evaluation.
Defined.

(** C6: when the total score matches none of the ranges scanned for the
    test type, the result carries the computed total score and the severity
    ['UNKNOWN'], and nothing is raised. *)
Theorem C6_no_match_is_unknown (answers : answers_t) (test_type : string) :
  Forall (λ d, range_matches d (sum_values answers) = false)
         (ranges_for test_type) →
  calculate_test_score answers test_type
  = inr (result (sum_values answers) (VStr "UNKNOWN")).
Proof. apply calculate_test_score_no_match. Qed.

Lemma C6_witness :
  calculate_test_score [("1", 30); ("2", -2)] "PHQ9"
  = inr (result (sum_values [("1", 30); ("2", -2)]) (VStr "UNKNOWN")).
Proof.
  apply (C6_no_match_is_unknown [("1", 30); ("2", -2)] "PHQ9").
  by_evaluation.
Defined.

(** C7: with the PHQ-9 table, answers summing to 4 give (4, MINIMAL),
    answers summing to 5 give (5, MILD), answers summing to 27 give
    (27, SEVERE) and answers summing to 28 give (28, UNKNOWN). *)
Theorem C7_phq9_scenarios (a4 a5 a27 a28 : answers_t) :
  sum_values a4 = 4 →
  sum_values a5 = 5 →
  sum_values a27 = 27 →
  sum_values a28 = 28 →
  calculate_test_score a4 "PHQ9" = inr (result 4 (VStr "MINIMAL")) ∧
  calculate_test_score a5 "PHQ9" = inr (result 5 (VStr "MILD")) ∧
  calculate_test_score a27 "PHQ9" = inr (result 27 (VStr "SEVERE")) ∧
  calculate_test_score a28 "PHQ9" = inr (result 28 (VStr "UNKNOWN")).
Proof.
  intros H4 H5 H27 H28.
  rewrite !calculate_test_score_unfold, H4, H5, H27, H28.
  repeat split; vm_compute; reflexivity.
Qed.

Lemma C7_witness :
  let ids := [1; 2; 3; 4; 5; 6; 7; 8] in
  calculate_test_score (uniform_answers ids 0 ++ [("9", 4)]) "PHQ9"
  = inr (result 4 (VStr "MINIMAL")) ∧
  calculate_test_score (uniform_answers ids 0 ++ [("9", 5)]) "PHQ9"
  = inr (result 5 (VStr "MILD")) ∧
  calculate_test_score (uniform_answers (ids ++ [9]) 3) "PHQ9"
  = inr (result 27 (VStr "SEVERE")) ∧
  calculate_test_score (uniform_answers ids 3 ++ [("9", 4)]) "PHQ9"
  = inr (result 28 (VStr "UNKNOWN")).
Proof.
  apply C7_phq9_scenarios; by_evaluation.
Defined.

(** C8: for a test whose type is neither ['PHQ9'] nor ['GAD7'] the severity
    is ['UNKNOWN'] whatever the total score and whatever scoring ranges the
    test row carries; ['PCL5'], a test type of the data model, is such a
    type. *)
Theorem C8_other_types_unknown (t : Test) (answers : answers_t) :
  test_type t ≠ "PHQ9" →
  test_type t ≠ "GAD7" →
  calculate_test_score answers (test_type t)
  = inr (result (sum_values answers) (VStr "UNKNOWN")) ∧
  "PCL5" ∈ TEST_TYPES.*1 ∧
  calculate_test_score answers "PCL5"
  = inr (result (sum_values answers) (VStr "UNKNOWN")).
Proof.
  intros Hp Hg.
  assert (Hother : ∀ ty : string, ty ≠ "PHQ9" → ty ≠ "GAD7" →
            calculate_test_score answers ty
            = inr (result (sum_values answers) (VStr "UNKNOWN"))).
  { intros ty H1 H2. apply calculate_test_score_no_match.
    table_cases ty; try done. }
  split; [by apply Hother|].
  split; [|by apply Hother].
  vm_compute. do 2 apply list_elem_of_further. apply list_elem_of_here.
Qed.

Lemma C8_witness :
  calculate_test_score [("1", 2); ("2", 4)] (test_type
    {| test_type := "PCL5"; questions := []; test_scoring_ranges := [] |})
  = inr (result (sum_values [("1", 2); ("2", 4)]) (VStr "UNKNOWN")) ∧
  "PCL5" ∈ TEST_TYPES.*1 ∧
  calculate_test_score [("1", 2); ("2", 4)] "PCL5"
  = inr (result (sum_values [("1", 2); ("2", 4)]) (VStr "UNKNOWN")).
Proof.
  apply (C8_other_types_unknown
           {| test_type := "PCL5"; questions := [];
              test_scoring_ranges := [] |}
           [("1", 2); ("2", 4)]); by_evaluation.
Defined.

(** C10: the scoring function is total.  For every answers mapping and every
    test type it returns, without raising, a dictionary with an integer
    ['score'] (the sum of the values) and a string ['severity'] (one of the
    four levels or ['UNKNOWN']); on the empty mapping the score is 0. *)
Theorem C10_calculate_test_score_total :
  (∀ (answers : answers_t) (test_type : string),
     ∃ r sev,
       calculate_test_score answers test_type = inr r ∧
       r !! "score" = Some (VInt (sum_values answers)) ∧
       r !! "severity" = Some (VStr sev) ∧
       sev ∈ SEVERITY_LEVELS.*1 ++ ["UNKNOWN"]) ∧
  (∀ test_type : string,
     ∃ r, calculate_test_score [] test_type = inr r ∧
          r !! "score" = Some (VInt 0)).
Proof.
  assert (Hall : ∀ (answers : answers_t) (test_type : string),
     ∃ r sev,
       calculate_test_score answers test_type = inr r ∧
       r !! "score" = Some (VInt (sum_values answers)) ∧
       r !! "severity" = Some (VStr sev) ∧
       sev ∈ SEVERITY_LEVELS.*1 ++ ["UNKNOWN"]).
  { intros answers test_type. rewrite calculate_test_score_unfold.
    destruct (resolve_severity_total (ranges_for test_type)
                (sum_values answers) (VStr "UNKNOWN")) as (s & -> & Hs).
    { apply ranges_for_well_formed. }
    assert (∃ sev, s = VStr sev ∧ sev ∈ SEVERITY_LEVELS.*1 ++ ["UNKNOWN"])
      as (sev & -> & Hsev).
    { destruct Hs as [->|(d & Hd & Hs)].
      - exists "UNKNOWN". split; [done|]. by_evaluation.
      - pose proof (ranges_for_severity test_type) as Hlev.
        rewrite Forall_forall in Hlev.
        destruct (Hlev d Hd) as (sev & Hs' & Hsev).
        exists sev. split; [congruence|].
        apply elem_of_app. by left. }
    exists (result (sum_values answers) (VStr sev)), sev.
    by rewrite result_score, result_severity. }
  split; [done|].
  intros test_type. destruct (Hall [] test_type) as (r & sev & Hr & Hs & _).
  by exists r.
Qed.

(** ** Lemmas on the validators *)

Section Validation.

Implicit Types (answers : answers_t) (qs : list Question) (q : Question).
Implicit Types (k : string) (v : Z).

Lemma next_question_Some qs k q :
  next_question qs k = Some q → q ∈ qs ∧ str (q_id q) = k.
Proof.
  unfold next_question. intros H.
  apply fmap_Some in H as ([i q'] & Hfind & ->).
  apply list_find_Some in Hfind as (Hi & Hk & _).
  split; [by eapply list_elem_of_lookup_2|done].
Qed.

Lemma next_question_head q qs :
  next_question (q :: qs) (str (q_id q)) = Some q.
Proof. unfold next_question. simpl. by rewrite decide_True. Qed.

Lemma next_question_unique qs q :
  NoDup (q_id <$> qs) → q ∈ qs → next_question qs (str (q_id q)) = Some q.
Proof.
  induction qs as [|q0 qs IH]; intros Hnd Hin; [by apply elem_of_nil in Hin|].
  rewrite fmap_cons in Hnd. apply NoDup_cons in Hnd as [Hfresh Hnd].
  apply elem_of_cons in Hin as [->|Hin]; [apply next_question_head|].
  unfold next_question. simpl.
  rewrite decide_False.
  - specialize (IH Hnd Hin). unfold next_question in IH.
    destruct (list_find _ qs) as [[i q']|]; simpl in *; congruence.
  - intros Heq. apply (inj str) in Heq.
    apply Hfresh. rewrite Heq. by apply list_elem_of_fmap_2.
Qed.

Lemma question_id_set_elem qs k :
  k ∈ question_id_set qs ↔ ∃ q, q ∈ qs ∧ str (q_id q) = k.
Proof.
  unfold question_id_set. rewrite elem_of_list_to_set, list_elem_of_fmap.
  split; intros (q & H1 & H2); by exists q.
Qed.

Lemma answer_id_set_elem answers k :
  k ∈ answer_id_set answers ↔ ∃ v, (k, v) ∈ answers.
Proof.
  unfold answer_id_set. rewrite elem_of_list_to_set, list_elem_of_fmap.
  split.
  - intros ([k' v] & -> & Hin). by exists v.
  - intros (v & Hin). by exists (k, v).
Qed.

(** The loop succeeds exactly when every item whose question is found has
    one of its option values. *)
Lemma check_answer_values_inr answers qs :
  check_answer_values answers qs = inr () ↔
  ∀ k v q, (k, v) ∈ answers → next_question qs k = Some q →
           v ∈ valid_values q.
Proof.
  induction answers as [|[k v] answers IH]; simpl.
  - split; [|done]. intros _ k v q Hin. by apply elem_of_nil in Hin.
  - destruct (next_question qs k) as [q|] eqn:Hq.
    + destruct (decide (v ∈ opt_value <$> q_options q)) as [Hv|Hv].
      * rewrite IH. split.
        -- intros H k' v' q' Hin Hq'.
           apply elem_of_cons in Hin as [[= -> ->]|Hin]; [|by eapply H].
           by rewrite Hq in Hq'; injection Hq' as <-.
        -- intros H k' v' q' Hin. apply H. by apply list_elem_of_further.
      * split; [done|]. intros H. exfalso. apply Hv.
        apply (H k v q); [apply list_elem_of_here|done].
    + rewrite IH. split.
      * intros H k' v' q' Hin Hq'.
        apply elem_of_cons in Hin as [[= -> ->]|Hin]; [congruence|].
        by eapply H.
      * intros H k' v' q' Hin. apply H. by apply list_elem_of_further.
Qed.

(** The loop fails at the first item with a value outside the options of
    its question, and the error carries the key of that item. *)
Lemma check_answer_values_inl answers qs (e : ValidationError) :
  check_answer_values answers qs = inl e →
  ∃ pre k v post q,
    answers = pre ++ (k, v) :: post ∧
    check_answer_values pre qs = inr () ∧
    next_question qs k = Some q ∧
    (v ∉ valid_values q) ∧
    e = invalid_answer k.
Proof.
  induction answers as [|[k v] answers IH]; simpl; [done|].
  destruct (next_question qs k) as [q|] eqn:Hq.
  - destruct (decide (v ∈ opt_value <$> q_options q)) as [Hv|Hv].
    + intros H. destruct (IH H) as (pre & k' & v' & post & q' & -> & Hpre & ?).
      exists (cons (k, v) pre), k', v', post, q'. split; [done|].
      split; [|done]. simpl. rewrite Hq. by rewrite decide_True.
    + intros [= <-]. by exists [], k, v, answers, q.
  - intros H. destruct (IH H) as (pre & k' & v' & post & q' & -> & Hpre & ?).
    exists (cons (k, v) pre), k', v', post, q'. split; [done|].
    split; [|done]. simpl. by rewrite Hq.
Qed.

Lemma validate_test_answers_unfold answers qs :
  validate_test_answers answers qs =
    if decide (question_id_set qs ≠ answer_id_set answers)
    then inl incomplete_answers
    else check_answer_values answers qs.
Proof. reflexivity. Qed.

End Validation.

(** ** Properties of [validate_test_answers] *)

(** C3: for a test whose question identifiers are pairwise distinct,
    validation succeeds if and only if the set of answer keys equals the set
    of question identifiers and, for every question, an answer is supplied
    and every supplied value is the value of one of its options. *)
Theorem C3_validate_succeeds_iff (answers : answers_t) (qs : list Question) :
  NoDup (q_id <$> qs) →
  validate_test_answers answers qs = inr () ↔
  answer_id_set answers = question_id_set qs ∧
  ∀ q, q ∈ qs →
       (∃ v, (str (q_id q), v) ∈ answers) ∧
       ∀ v, (str (q_id q), v) ∈ answers → v ∈ valid_values q.
Proof.
  intros Hnd. rewrite validate_test_answers_unfold.
  destruct (decide (question_id_set qs ≠ answer_id_set answers)) as [Hne|Heq].
  - split; [done|]. intros [Hset _]. by destruct Hne.
  - apply dec_stable in Heq. rewrite check_answer_values_inr. split.
    + intros Hok. split; [done|]. intros q Hq. split.
      * apply answer_id_set_elem. rewrite <- Heq.
        apply question_id_set_elem. by exists q.
      * intros v Hin. apply (Hok (str (q_id q)) v q Hin).
        by apply next_question_unique.
    + intros [_ Hok] k v q Hin Hfind.
      apply next_question_Some in Hfind as [Hq <-].
      by apply (Hok q Hq).
Qed.

Lemma C3_witness :
  validate_test_answers (uniform_answers [1; 2; 3; 4; 5; 6; 7; 8; 9] 3)
    (questions phq9_test) = inr () ↔
  answer_id_set (uniform_answers [1; 2; 3; 4; 5; 6; 7; 8; 9] 3)
  = question_id_set (questions phq9_test) ∧
  ∀ q, q ∈ questions phq9_test →
       (∃ v, (str (q_id q), v)
             ∈ uniform_answers [1; 2; 3; 4; 5; 6; 7; 8; 9] 3) ∧
       ∀ v, (str (q_id q), v)
            ∈ uniform_answers [1; 2; 3; 4; 5; 6; 7; 8; 9] 3 →
            v ∈ valid_values q.
Proof.
  apply (C3_validate_succeeds_iff
           (uniform_answers [1; 2; 3; 4; 5; 6; 7; 8; 9] 3)
           (questions phq9_test)).
  by_evaluation.
Defined.

(** C2, refuted as stated: the submission of the PHQ-9 test that leaves
    question 9 out fails with the generic error, which names no question;
    the missing question 9 is not reported. *)
Lemma C2_counterexample :
  validate_test_answers (uniform_answers [1; 2; 3; 4; 5; 6; 7; 8] 2)
    (questions phq9_test) = inl incomplete_answers ∧
  missing (uniform_answers [1; 2; 3; 4; 5; 6; 7; 8] 2)
    (questions phq9_test) "9" ∧
  ¬ names incomplete_answers "9" ∧
  ¬ reports_every_violation.
Proof.
  assert (Hfail : validate_test_answers
                    (uniform_answers [1; 2; 3; 4; 5; 6; 7; 8] 2)
                    (questions phq9_test) = inl incomplete_answers)
    by by_evaluation.
  assert (Hmiss : missing (uniform_answers [1; 2; 3; 4; 5; 6; 7; 8] 2)
                    (questions phq9_test) "9").
  { split; by_evaluation. }
  assert (Hnames : ¬ names incomplete_answers "9").
  { unfold names. simpl. apply not_elem_of_nil. }
  repeat split; try done.
  intros Hclaim. apply Hnames.
  apply (Hclaim _ _ _ Hfail). by left.
Qed.

(** C2 (as the code has it): validation fails fast.  When the key set
    differs from the set of question identifiers the error is the generic
    [incomplete_answers] one, which carries no question identifier;
    otherwise the error is [invalid_answer] and carries the key of the first
    item, in iteration order, whose value is not an option value of its
    question, every item before it being valid. *)
Theorem C2_validation_fails_fast
    (answers : answers_t) (qs : list Question) (e : ValidationError) :
  validate_test_answers answers qs = inl e →
  (question_id_set qs ≠ answer_id_set answers ∧
   e = incomplete_answers ∧ params e = []) ∨
  (question_id_set qs = answer_id_set answers ∧
   ∃ pre k v post q,
     answers = pre ++ (k, v) :: post ∧
     check_answer_values pre qs = inr () ∧
     next_question qs k = Some q ∧
     (v ∉ valid_values q) ∧
     e = invalid_answer k ∧
     params e = [("q_id", k)]).
Proof.
  rewrite validate_test_answers_unfold.
  destruct (decide (question_id_set qs ≠ answer_id_set answers)) as [Hne|Heq].
  - intros [= <-]. by left.
  - intros Hcheck. right. split; [by apply dec_stable|].
    apply check_answer_values_inl in Hcheck
      as (pre & k & v & post & q & -> & Hpre & Hq & Hv & ->).
    by exists pre, k, v, post, q.
Qed.

Lemma C2_witness :
  let answers :=
    uniform_answers [1; 2; 3] 2 ++ [("4", 7)] ++
    uniform_answers [5; 6; 7; 8; 9] 9 in
  let qs := questions phq9_test in
  let e := invalid_answer "4" in
  (question_id_set qs ≠ answer_id_set answers ∧
   e = incomplete_answers ∧ params e = []) ∨
  (question_id_set qs = answer_id_set answers ∧
   ∃ pre k v post q,
     answers = pre ++ (k, v) :: post ∧
     check_answer_values pre qs = inr () ∧
     next_question qs k = Some q ∧
     (v ∉ valid_values q) ∧
     e = invalid_answer k ∧
     params e = [("q_id", k)]).
Proof.
  apply (C2_validation_fails_fast
           (uniform_answers [1; 2; 3] 2 ++ [("4", 7)] ++
            uniform_answers [5; 6; 7; 8; 9] 9)
           (questions phq9_test) (invalid_answer "4")).
  by_evaluation.
Defined.

(** ** A validated submission scores within the achievable totals *)

Section Bounds.

Implicit Types (answers : answers_t) (qs : list Question) (q : Question).

Lemma foldr_min_le (a : Z) (vs : list Z) :
  foldr Z.min a vs ≤ a ∧ ∀ v, v ∈ vs → foldr Z.min a vs ≤ v.
Proof.
  induction vs as [|w vs [IHa IHv]]; simpl.
  - split; [lia|]. intros v Hv. by apply elem_of_nil in Hv.
  - split; [lia|]. intros v Hv.
    apply elem_of_cons in Hv as [->|Hv]; [lia|]. specialize (IHv v Hv). lia.
Qed.

Lemma foldr_max_ge (a : Z) (vs : list Z) :
  a ≤ foldr Z.max a vs ∧ ∀ v, v ∈ vs → v ≤ foldr Z.max a vs.
Proof.
  induction vs as [|w vs [IHa IHv]]; simpl.
  - split; [lia|]. intros v Hv. by apply elem_of_nil in Hv.
  - split; [lia|]. intros v Hv.
    apply elem_of_cons in Hv as [->|Hv]; [lia|]. specialize (IHv v Hv). lia.
Qed.

Lemma min_value_le (vs : list Z) (v : Z) : v ∈ vs → min_value vs ≤ v.
Proof.
  destruct vs as [|a vs]; [intros H; by apply elem_of_nil in H|].
  simpl. destruct (foldr_min_le a vs) as [Ha Hv].
  intros Hin. apply elem_of_cons in Hin as [->|Hin]; [done|by apply Hv].
Qed.

Lemma max_value_ge (vs : list Z) (v : Z) : v ∈ vs → v ≤ max_value vs.
Proof.
  destruct vs as [|a vs]; [intros H; by apply elem_of_nil in H|].
  simpl. destruct (foldr_max_ge a vs) as [Ha Hv].
  intros Hin. apply elem_of_cons in Hin as [->|Hin]; [done|by apply Hv].
Qed.

(** When the keys of the answers are exactly the question identifiers, each
    once, and every value lies within per-question bounds, the sum of the
    values lies within the sums of the bounds. *)
Lemma answers_sum_bounds (lo hi : Question → Z) qs :
  ∀ answers,
    NoDup ((λ q, str (q_id q)) <$> qs) →
    NoDup (answers.*1) →
    (∀ k, k ∈ answers.*1 ↔ k ∈ (λ q, str (q_id q)) <$> qs) →
    (∀ q v, q ∈ qs → (str (q_id q), v) ∈ answers → lo q ≤ v ≤ hi q) →
    plain_sum (lo <$> qs) ≤ plain_sum (answers.*2) ≤ plain_sum (hi <$> qs).
Proof.
  induction qs as [|q qs IH]; intros answers Hndq Hnda Hkeys Hval.
  - destruct answers as [|[k v] answers]; [simpl; lia|].
    exfalso. eapply elem_of_nil, Hkeys. simpl. apply list_elem_of_here.
  - rewrite fmap_cons in Hndq. apply NoDup_cons in Hndq as [Hq Hndq].
    assert (Hin : str (q_id q) ∈ answers.*1).
    { apply Hkeys. simpl. apply list_elem_of_here. }
    apply list_elem_of_fmap in Hin as ([k v] & Hk & Hin).
    simpl in Hk. subst k.
    apply elem_of_Permutation in Hin as (rest & Hperm).
    assert (Hperm1 : answers.*1 ≡ₚ str (q_id q) :: rest.*1).
    { by apply (fmap_Permutation fst) in Hperm. }
    assert (Hperm2 : answers.*2 ≡ₚ v :: rest.*2).
    { by apply (fmap_Permutation snd) in Hperm. }
    rewrite (plain_sum_perm _ _ Hperm2), !fmap_cons. cbn [plain_sum].
    rewrite Hperm1 in Hnda. apply NoDup_cons in Hnda as [Hfresh Hnda].
    assert (Hv : lo q ≤ v ≤ hi q).
    { apply Hval; [apply list_elem_of_here|].
      rewrite Hperm. apply list_elem_of_here. }
    assert (Hrest : plain_sum (lo <$> qs) ≤ plain_sum (rest.*2)
                    ≤ plain_sum (hi <$> qs)).
    { apply IH; try done.
      - intros k. split.
        + intros Hk.
          assert (Hk' : k ∈ answers.*1)
            by (rewrite Hperm1; by apply list_elem_of_further).
          apply Hkeys in Hk'. simpl in Hk'.
          apply elem_of_cons in Hk' as [->|Hk']; [done|done].
        + intros Hk.
          assert (Hk' : k ∈ answers.*1).
          { apply Hkeys. simpl. by apply list_elem_of_further. }
          rewrite Hperm1 in Hk'.
          apply elem_of_cons in Hk' as [->|Hk']; [done|done].
      - intros q' v' Hq' Hin'. apply Hval; [by apply list_elem_of_further|].
        rewrite Hperm. by apply list_elem_of_further. }
    lia.
Qed.

(** A validated submission scores between the least and the greatest
    achievable total. *)
Lemma validated_total_in_domain answers qs :
  NoDup (q_id <$> qs) →
  NoDup (answers.*1) →
  validate_test_answers answers qs = inr () →
  min_possible qs ≤ sum_values answers ≤ max_possible qs.
Proof.
  intros Hndq Hnda. rewrite validate_test_answers_unfold.
  destruct (decide (question_id_set qs ≠ answer_id_set answers)) as [|Heq];
    [done|].
  apply dec_stable in Heq. rewrite check_answer_values_inr. intros Hok.
  rewrite sum_values_plain. unfold min_possible, max_possible.
  apply answers_sum_bounds.
  - rewrite (list_fmap_compose q_id str). by apply (NoDup_fmap_2 str).
  - done.
  - intros k. unfold question_id_set, answer_id_set in Heq.
    rewrite <- (elem_of_list_to_set (C := gset string) k (answers.*1)).
    rewrite <- (elem_of_list_to_set (C := gset string) k
                  ((λ q, str (q_id q)) <$> qs)).
    by rewrite Heq.
  - intros q v Hq Hin.
    assert (Hv : v ∈ valid_values q).
    { apply (Hok (str (q_id q)) v q Hin). by apply next_question_unique. }
    split; [by apply min_value_le|by apply max_value_ge].
Qed.

(** Among well-formed ranges of which one matches, the loop returns the
    severity of a matching range. *)
Lemma resolve_severity_match (ranges : list dict) (total : Z) (sev : pyval) :
  Forall range_well_formed ranges →
  Exists (λ d, range_matches d total = true) ranges →
  ∃ d s, d ∈ ranges ∧ range_matches d total = true ∧
         d !! "severity" = Some s ∧
         resolve_severity ranges total sev = inr s.
Proof.
  induction 1 as [|d ranges Hd Hwf IH]; intros Hex.
  - by apply Exists_nil in Hex.
  - rewrite resolve_severity_step by done.
    destruct (range_matches d total) eqn:Hm.
    + destruct Hd as (lo & hi & s & _ & _ & Hs).
      exists d, (VStr s). rewrite Hs.
      split; [apply list_elem_of_here|done].
    + apply Exists_cons in Hex as [Hex|Hex]; [congruence|].
      destruct (IH Hex) as (d' & s & Hin & Hm' & Hs & Hr).
      exists d', s. split; [by apply list_elem_of_further|done].
Qed.

Lemma table_cover_match (ranges : list dict) (lo hi total : Z) :
  table_cover ranges lo hi = true →
  lo ≤ total ≤ hi →
  Exists (λ d, range_matches d total = true) ranges.
Proof.
  unfold table_cover. intros Hcover Hin.
  rewrite forallb_forall in Hcover.
  assert (Hmem : In total (seqZ lo (hi - lo + 1))).
  { apply list_elem_of_In, elem_of_seqZ. lia. }
  apply Hcover, existsb_exists in Hmem as (d & Hd & Hm).
  apply Exists_exists. exists d. split; [by apply list_elem_of_In|done].
Qed.

End Bounds.

(** ** Covered score domains *)

(** C1, refuted as stated: the GAD-7 typed test of eight questions has
    contiguous authored ranges covering every achievable total, 0..24; the
    submission answering 3 everywhere passes validation and totals 24; yet
    it is scored ['UNKNOWN'], the hard-coded GAD-7 table ending at 21. *)
Lemma C1_counterexample :
  authored_contiguous (test_scoring_ranges gad7_long_test) = true ∧
  min_possible (questions gad7_long_test) = 0 ∧
  max_possible (questions gad7_long_test) = 24 ∧
  authored_cover (test_scoring_ranges gad7_long_test) 0 24 = true ∧
  validate_test_answers (uniform_answers [1; 2; 3; 4; 5; 6; 7; 8] 3)
    (questions gad7_long_test) = inr () ∧
  calculate_test_score (uniform_answers [1; 2; 3; 4; 5; 6; 7; 8] 3)
    (test_type gad7_long_test)
  = inr (result 24 (VStr "UNKNOWN")) ∧
  ¬ authored_ranges_exclude_unknown.
Proof.
  assert (Hscore : calculate_test_score
                     (uniform_answers [1; 2; 3; 4; 5; 6; 7; 8] 3)
                     (test_type gad7_long_test)
                   = inr (result 24 (VStr "UNKNOWN"))) by by_evaluation.
  do 5 (split; [by_evaluation|]). split; [done|].
  intros Hclaim.
  apply (Hclaim gad7_long_test (uniform_answers [1; 2; 3; 4; 5; 6; 7; 8] 3)
           ltac:(by_evaluation) ltac:(by_evaluation) ltac:(by_evaluation)
           ltac:(by_evaluation) ltac:(by_evaluation) _ Hscore).
  apply result_severity.
Qed.

(** C1 (as the code has it): for every test whose type has hard-coded
    ranges covering every achievable total, from the minimum to the maximum
    sum of option values, a submission that passed validation is never
    scored ['UNKNOWN']. *)
Theorem C1_covered_domain_never_unknown (t : Test) (answers : answers_t) :
  NoDup (q_id <$> questions t) →
  NoDup (answers.*1) →
  table_cover (ranges_for (test_type t))
    (min_possible (questions t)) (max_possible (questions t)) = true →
  validate_test_answers answers (questions t) = inr () →
  ∃ sev,
    calculate_test_score answers (test_type t)
    = inr (result (sum_values answers) (VStr sev)) ∧
    sev ≠ "UNKNOWN".
Proof.
  intros Hndq Hnda Hcover Hvalid.
  pose proof (validated_total_in_domain _ _ Hndq Hnda Hvalid) as Hdom.
  pose proof (table_cover_match _ _ _ _ Hcover Hdom) as Hex.
  destruct (resolve_severity_match _ _ (VStr "UNKNOWN")
              (ranges_for_well_formed (test_type t)) Hex)
    as (d & s & Hd & _ & Hs & Hr).
  pose proof (ranges_for_severity (test_type t)) as Hlev.
  rewrite Forall_forall in Hlev.
  destruct (Hlev d Hd) as (sev & Hs' & Hsev).
  assert (s = VStr sev) as -> by congruence.
  exists sev. rewrite calculate_test_score_unfold, Hr.
  split; [done|].
  intros ->. revert Hsev. by_evaluation.
Qed.

Lemma C1_witness :
  ∃ sev,
    calculate_test_score (uniform_answers [1; 2; 3; 4; 5; 6; 7; 8; 9] 3)
      (test_type phq9_test)
    = inr (result (sum_values (uniform_answers [1; 2; 3; 4; 5; 6; 7; 8; 9] 3))
             (VStr sev)) ∧
    sev ≠ "UNKNOWN".
Proof.
  apply (C1_covered_domain_never_unknown phq9_test
           (uniform_answers [1; 2; 3; 4; 5; 6; 7; 8; 9] 3));
    by_evaluation.
Defined.

(** ** Properties of [SubmitTestSerializer.validate_answers] *)

Lemma out_of_domain_not_valid (q : Question) :
  out_of_domain q ∉ valid_values q.
Proof.
  intros Hin. unfold out_of_domain in Hin.
  destruct (foldr_max_ge 0 (valid_values q)) as [_ Hmax].
  specialize (Hmax _ Hin). lia.
Qed.

Lemma out_of_domain_answers_keys (qs : list Question) :
  answer_id_set (out_of_domain_answers qs) = question_id_set qs.
Proof.
  unfold answer_id_set, question_id_set, out_of_domain_answers.
  by rewrite <- list_fmap_compose.
Qed.

Lemma validate_answers_unfold (t : Test) (value : answers_t) :
  validate_answers (Some t) value =
    if decide (question_id_set (questions t) ≠ answer_id_set value)
    then inl (SerializerValidationError "All questions must be answered")
    else inr value.
Proof. reflexivity. Qed.

(** C9: the serializer of the submission path accepts a submission exactly
    when its key set equals the set of question identifiers, whatever the
    values.  In particular the submission answering every question with a
    value outside its options is accepted, although [validate_test_answers]
    rejects it at its first question. *)
Theorem C9_submit_checks_keys_only (t : Test) (value : answers_t) :
  (validate_answers (Some t) value = inr value ↔
   answer_id_set value = question_id_set (questions t)) ∧
  Forall (λ q, out_of_domain q ∉ valid_values q) (questions t) ∧
  validate_answers (Some t) (out_of_domain_answers (questions t))
  = inr (out_of_domain_answers (questions t)) ∧
  (∀ q rest, questions t = q :: rest →
     validate_test_answers (out_of_domain_answers (questions t))
       (questions t)
     = inl (invalid_answer (str (q_id q)))).
Proof.
  split; [|split; [|split]].
  - rewrite validate_answers_unfold.
    destruct (decide (question_id_set (questions t) ≠ answer_id_set value))
      as [Hne|Heq].
    + split; [done|]. intros Heq. by destruct Hne.
    + apply dec_stable in Heq. by split.
  - apply Forall_forall. intros q _. apply out_of_domain_not_valid.
  - rewrite validate_answers_unfold, out_of_domain_answers_keys.
    by rewrite decide_False by (intros H; by apply H).
  - intros q rest Hqs.
    rewrite validate_test_answers_unfold, out_of_domain_answers_keys.
    rewrite decide_False by (intros H; by apply H).
    rewrite Hqs. simpl. rewrite next_question_head.
    rewrite decide_False; [done|]. apply out_of_domain_not_valid.
Qed.

Lemma C9_witness :
  validate_answers (Some phq9_test)
    (uniform_answers [1; 2; 3; 4; 5; 6; 7; 8; 9] 4)
  = inr (uniform_answers [1; 2; 3; 4; 5; 6; 7; 8; 9] 4) ∧
  validate_test_answers (out_of_domain_answers (questions phq9_test))
    (questions phq9_test)
  = inl (invalid_answer "1").
Proof.
  destruct (C9_submit_checks_keys_only phq9_test
              (uniform_answers [1; 2; 3; 4; 5; 6; 7; 8; 9] 4))
    as (Hiff & _ & _ & Hreject).
  split.
  - apply Hiff. by_evaluation.
  - apply (Hreject (likert_question 1) (likert_question <$> [2; 3; 4; 5; 6; 7; 8; 9])).
    reflexivity.
Defined.

(** * Further properties of the cited modules *)

(** ** The pattern matcher on the validators' patterns *)

Section Patterns.

Implicit Types (s pre post body : pystr) (cls : list class_item).
Implicit Types (k : nat → pystr → bool).

Lemma at_end_iff s : at_end s = true ↔ s = [] ∨ s = [newline].
Proof.
  destruct s as [|c [|d s]]; simpl.
  - split; [by left|done].
  - rewrite Ascii.eqb_eq. split; [intros ->; by right|].
    intros [?|[= ->]]; done.
  - split; [done|]. intros [?|?]; done.
Qed.

(** [[cls]{m,n}] consumes between [m] and [n] characters of the class. *)
Lemma re_repeat_class cls (m n pos : nat) s k :
  re_repeat (re_match_at (Class cls)) m n pos s k = true ↔
  ∃ pre post,
    s = pre ++ post ∧ (m ≤ length pre ≤ n)%nat ∧ all_in cls pre ∧
    k (pos + length pre)%nat post = true.
Proof.
  revert m pos s. induction n as [|n IH]; intros m pos s; simpl.
  - rewrite andb_true_iff, Nat.eqb_eq. split.
    + intros [-> Hk]. exists [], s. rewrite Nat.add_0_r.
      repeat split; [simpl; lia..|constructor|done].
    + intros (pre & post & -> & Hlen & _ & Hk).
      destruct pre; [|simpl in Hlen; lia].
      simpl in *. rewrite Nat.add_0_r in Hk. split; [lia|done].
  - rewrite orb_true_iff, andb_true_iff, Nat.eqb_eq. split.
    + intros [Hstep|[-> Hk]].
      * destruct s as [|c s]; [done|].
        apply andb_true_iff in Hstep as [Hc Hrest].
        apply IH in Hrest as (pre & post & -> & Hlen & Hall & Hk).
        exists (c :: pre), post. simpl.
        rewrite Nat.add_succ_r. repeat split; [lia..|by constructor|done].
      * exists [], s. rewrite Nat.add_0_r.
        repeat split; [simpl; lia..|constructor|done].
    + intros (pre & post & -> & Hlen & Hall & Hk).
      destruct pre as [|c pre]; simpl in *.
      * right. rewrite Nat.add_0_r in Hk. split; [lia|done].
      * left. apply Forall_cons in Hall as [Hc Hall].
        rewrite Hc. simpl. apply IH. exists pre, post.
        rewrite Nat.add_succ_r in Hk. repeat split; [lia..|done|done].
Qed.


(** The patterns [^[cls]{m,n}$]: between [m] and [n] characters of the
    class, possibly followed by one newline. *)
Lemma re_match_anchored_class cls (m n : nat) s :
  re_match (Seq StartAnchor (Seq (Repeat (Class cls) m n) EndAnchor)) s
  = true ↔
  ∃ body, (s = body ∨ s = body ++ [newline]) ∧
          (m ≤ length body ≤ n)%nat ∧ all_in cls body.
Proof.
  change (re_match _ s)
    with (re_repeat (re_match_at (Class cls)) m n 0 s
            (λ _ s', at_end s' && true)).
  rewrite re_repeat_class. split.
  - intros (pre & post & -> & Hlen & Hall & Hend).
    rewrite andb_true_r in Hend. apply at_end_iff in Hend as [->| ->].
    + exists pre. rewrite app_nil_r. auto.
    + exists pre. auto.
  - intros (body & [->| ->] & Hlen & Hall).
    + exists body, []. rewrite app_nil_r. auto.
    + exists body, [newline]. auto.
Qed.

(** [re.search] for a character class finds a character of the class. *)
Lemma re_search_from_class cls (pos : nat) s :
  re_search_from (Class cls) pos s = true ↔ some_in cls s.
Proof.
  revert pos. induction s as [|c s IH]; intros pos; simpl.
  - split; [done|]. intros H. by apply Exists_nil in H.
  - rewrite andb_true_r, orb_true_iff, IH. unfold some_in.
    rewrite Exists_cons. done.
Qed.

Lemma re_search_class cls s : re_search (Class cls) s = true ↔ some_in cls s.
Proof. apply re_search_from_class. Qed.

End Patterns.

(** ** Properties of the string validators *)

Lemma negb_guard (b : bool) (e : ValidationError) :
  (if negb b then inl e else inr ()) = inr () ↔ b = true.
Proof. destruct b; simpl; split; done. Qed.

(** X1: [validate_username] accepts exactly the strings made of 3 to 30
    letters, digits and underscores, and those strings followed by one
    newline character. *)
Theorem validate_username_accepts_iff (username : pystr) :
  validate_username username = inr () ↔
  ∃ body, (username = body ∨ username = body ++ [newline]) ∧
          (3 ≤ length body ≤ 30)%nat ∧ all_in username_class body.
Proof.
  unfold validate_username. rewrite negb_guard.
  apply re_match_anchored_class.
Qed.


Lemma password_checks (password : pystr) :
  validate_password_strength password = inr () ↔
  (8 ≤ length password)%nat ∧
  re_search (Class upper_class) password = true ∧
  re_search (Class lower_class) password = true ∧
  re_search (Class digit_class) password = true ∧
  re_search (Class special_class) password = true.
Proof.
  unfold validate_password_strength.
  destruct (decide (length password < 8)%nat) as [Hlt|Hge].
  { split; [done|]. intros [Hlen _]. lia. }
  destruct (re_search (Class upper_class) password); simpl;
    [|split; [done|by intros (_ & ? & ? & ? & ?)]].
  destruct (re_search (Class lower_class) password); simpl;
    [|split; [done|by intros (_ & ? & ? & ? & ?)]].
  destruct (re_search (Class digit_class) password); simpl;
    [|split; [done|by intros (_ & ? & ? & ? & ?)]].
  destruct (re_search (Class special_class) password); simpl;
    [|split; [done|by intros (_ & ? & ? & ? & ?)]].
  split; [|done]. intros _. repeat split. lia.
Qed.

(** X3: [validate_password_strength] accepts exactly the passwords of at
    least 8 characters that hold an uppercase letter, a lowercase letter, a
    digit and one of the listed special characters. *)
Theorem validate_password_strength_accepts_iff (password : pystr) :
  validate_password_strength password = inr () ↔
  (8 ≤ length password)%nat ∧
  some_in upper_class password ∧
  some_in lower_class password ∧
  some_in digit_class password ∧
  some_in special_class password.
Proof. rewrite password_checks, !re_search_class. done. Qed.

(** X4: an accepted password stays accepted when characters are added
    before or after it: there is no maximum length and no forbidden
    character. *)
Theorem validate_password_strength_extension (before password after : pystr) :
  validate_password_strength password = inr () →
  validate_password_strength (before ++ password ++ after) = inr ().
Proof.
  rewrite !password_checks, !re_search_class. unfold some_in.
  intros (Hlen & Hu & Hl & Hd & Hs).
  rewrite !length_app, !Exists_app. repeat split; [lia|auto..].
Qed.

Lemma validate_password_strength_extension_witness :
  validate_password_strength
    (chars "  " ++ chars "Abcdef1!" ++ chars " and more") = inr ().
Proof.
  apply (validate_password_strength_extension
           (chars "  ") (chars "Abcdef1!") (chars " and more")).
  by_evaluation.
Defined.

Lemma check_tags_iff (tags : list pystr) :
  check_tags tags = inr () ↔ Forall tag_ok tags.
Proof.
  induction tags as [|tag tags IH]; simpl.
  - split; [constructor|done].
  - rewrite Forall_cons. destruct (re_match tag_pattern tag) eqn:Hm; simpl.
    + rewrite IH. split; [|by intros [_ ?]].
      intros H. split; [|done]. by apply re_match_anchored_class.
    + split; [done|]. intros [Hok _].
      apply re_match_anchored_class in Hok. unfold tag_pattern in Hm.
      congruence.
Qed.

(** X5: [validate_tags] accepts exactly the lists of at most five tags, each
    made of 2 to 30 letters, digits and hyphens, possibly followed by one
    newline character; the empty list is accepted. *)
Theorem validate_tags_accepts_iff (tags : list pystr) :
  validate_tags tags = inr () ↔
  (length tags ≤ 5)%nat ∧ Forall tag_ok tags.
Proof.
  unfold validate_tags. destruct (decide (5 < length tags)%nat) as [Hgt|Hle].
  - split; [done|]. intros [Hlen _]. lia.
  - rewrite check_tags_iff. split; [|by intros [_ ?]].
    intros H. split; [lia|done].
Qed.

(** X6: with more than five tags the error is [too_many_tags], also when
    some tag is malformed; with at most five tags and a malformed one it is
    [invalid_tag]. *)
Theorem validate_tags_error_code (tags : list pystr) (e : ValidationError) :
  validate_tags tags = inl e →
  (5 < length tags)%nat ∧ code e = "too_many_tags" ∨
  (length tags ≤ 5)%nat ∧ ¬ Forall tag_ok tags ∧ code e = "invalid_tag".
Proof.
  unfold validate_tags. destruct (decide (5 < length tags)%nat) as [Hgt|Hle].
  - intros [= <-]. by left.
  - intros Hcheck. right. split; [lia|]. split.
    + rewrite <- check_tags_iff. congruence.
    + clear Hle. induction tags as [|tag tags IH]; [done|].
      simpl in Hcheck. destruct (re_match tag_pattern tag); simpl in Hcheck.
      * by apply IH.
      * by injection Hcheck as <-.
Qed.

Lemma validate_tags_error_code_witness :
  let tags := [chars "a"; chars "b"; chars "c"; chars "d"; chars "e";
               chars "f"] in
  let e := validation_error "Maximum 5 tags allowed." "too_many_tags" in
  (5 < length tags)%nat ∧ code e = "too_many_tags" ∨
  (length tags ≤ 5)%nat ∧ ¬ Forall tag_ok tags ∧ code e = "invalid_tag".
Proof.
  apply (validate_tags_error_code
           [chars "a"; chars "b"; chars "c"; chars "d"; chars "e"; chars "f"]
           (validation_error "Maximum 5 tags allowed." "too_many_tags")).
  by_evaluation.
Defined.

(** ** Properties of [paginate_queryset] *)

Section Pagination.

Context {Q A : Type} `{!QuerySet Q A}.

Implicit Types (queryset : Q) (page page_size : Z).

(** A call with a page from 1 and a page size from 1. *)
Lemma paginate_queryset_valid queryset page page_size :
  1 ≤ page → 1 ≤ page_size →
  paginate_queryset queryset page page_size
  = inr {| pg_items :=
             take (Z.to_nat page_size)
               (drop (Z.to_nat ((page - 1) * page_size)) (rows queryset));
           pg_total := Z.of_nat (length (rows queryset));
           pg_page := page;
           pg_page_size := page_size;
           pg_total_pages :=
             (Z.of_nat (length (rows queryset)) + page_size - 1)
               `div` page_size |}.
Proof.
  intros Hpage Hsize. unfold paginate_queryset.
  rewrite getslice_rows by nia. rewrite count_rows.
  unfold floordiv. rewrite decide_False by lia.
  do 3 f_equal. lia.
Qed.

(** The number of pages is the least that holds all the rows. *)
Lemma total_pages_bounds (total page_size : Z) :
  1 ≤ page_size →
  let n := (total + page_size - 1) `div` page_size in
  (n - 1) * page_size < total ≤ n * page_size.
Proof.
  intros Hsize n.
  pose proof (Z.mul_div_le (total + page_size - 1) page_size) as Hlo.
  pose proof (Z.mul_succ_div_gt (total + page_size - 1) page_size) as Hhi.
  fold n in Hlo, Hhi. nia.
Qed.

(** Cutting a list into [n] chunks of [size] and joining them gives the list
    back when the chunks reach its end. *)
Lemma chunks_concat (l : list A) (size : nat) :
  ∀ (n first : nat),
    (0 < size)%nat →
    (length l ≤ (first + n) * size)%nat →
    concat ((λ i, take size (drop (i * size) l)) <$> seq first n)
    = drop (first * size) l.
Proof.
  induction n as [|n IH]; intros first Hsize Hlen; simpl.
  - symmetry. apply drop_ge. lia.
  - rewrite IH by lia.
    replace (S first * size)%nat with (first * size + size)%nat by lia.
    rewrite <- drop_drop. apply take_drop.
Qed.

End Pagination.

(** X7: a page size of 0 makes [paginate_queryset] raise
    [ZeroDivisionError], whatever the page; with a page size from 1, a page
    below 1 makes the slice raise for negative indexing, as does a negative
    page size with a page from 1. *)
Theorem paginate_queryset_bad_arguments {Q A : Type} `{!QuerySet Q A}
    (queryset : Q) (page page_size : Z) :
  paginate_queryset queryset page 0 = inl ZeroDivisionError ∧
  (1 ≤ page_size → page ≤ 0 →
   paginate_queryset queryset page page_size = inl NegativeIndexing) ∧
  (page_size < 0 → 1 ≤ page →
   paginate_queryset queryset page page_size = inl NegativeIndexing).
Proof.
  split; [|split].
  - unfold paginate_queryset.
    rewrite getslice_rows by lia. reflexivity.
  - intros Hsize Hpage. unfold paginate_queryset.
    rewrite getslice_negative; [done|]. left. nia.
  - intros Hsize Hpage. unfold paginate_queryset.
    rewrite getslice_negative; [done|]. right. nia.
Qed.

Lemma paginate_queryset_bad_arguments_witness :
  paginate_queryset [10; 20; 30] 0 0 = inl ZeroDivisionError ∧
  paginate_queryset [10; 20; 30] 0 2 = inl NegativeIndexing ∧
  paginate_queryset [10; 20; 30] 1 (-2) = inl NegativeIndexing.
Proof.
  split; [|split].
  - apply (paginate_queryset_bad_arguments [10; 20; 30] 0 0).
  - destruct (paginate_queryset_bad_arguments [10; 20; 30] 0 2)
      as (_ & Hpage & _).
    apply Hpage; lia.
  - destruct (paginate_queryset_bad_arguments [10; 20; 30] 1 (-2))
      as (_ & _ & Hsize).
    apply Hsize; lia.
Defined.

(** X8: with a page from 1 and a page size from 1 the call returns: the
    items are the rows from [(page - 1) * page_size] on, at most
    [page_size] of them; [total] is the number of rows; and [total_pages] is
    the least number of pages that holds all rows. *)
Theorem paginate_queryset_page {Q A : Type} `{!QuerySet Q A}
    (queryset : Q) (page page_size : Z) :
  1 ≤ page → 1 ≤ page_size →
  ∃ r, paginate_queryset queryset page page_size = inr r ∧
       pg_items r
       = take (Z.to_nat page_size)
           (drop (Z.to_nat ((page - 1) * page_size)) (rows queryset)) ∧
       Z.of_nat (length (pg_items r)) ≤ page_size ∧
       pg_total r = Z.of_nat (length (rows queryset)) ∧
       pg_page r = page ∧ pg_page_size r = page_size ∧
       (pg_total_pages r - 1) * page_size < pg_total r
       ≤ pg_total_pages r * page_size.
Proof.
  intros Hpage Hsize. eexists. split; [by apply paginate_queryset_valid|].
  simpl. split; [done|]. split; [rewrite length_take; lia|].
  repeat split; by apply total_pages_bounds.
Qed.

Lemma paginate_queryset_page_witness :
  ∃ r, paginate_queryset [10; 20; 30; 40; 50; 60; 70] 3 3 = inr r ∧
       pg_items r
       = take (Z.to_nat 3)
           (drop (Z.to_nat ((3 - 1) * 3))
              (rows [10; 20; 30; 40; 50; 60; 70])) ∧
       Z.of_nat (length (pg_items r)) ≤ 3 ∧
       pg_total r = Z.of_nat (length (rows [10; 20; 30; 40; 50; 60; 70])) ∧
       pg_page r = 3 ∧ pg_page_size r = 3 ∧
       (pg_total_pages r - 1) * 3 < pg_total r ≤ pg_total_pages r * 3.
Proof.
  apply (paginate_queryset_page [10; 20; 30; 40; 50; 60; 70] 3 3); lia.
Defined.

(** X9: the pages partition the rows: with a page size from 1, joining the
    items of the pages 1 to [total_pages], in order, gives the rows of the
    query set, each once and in order. *)
Theorem paginate_queryset_partition {Q A : Type} `{!QuerySet Q A}
    (queryset : Q) (page_size : Z) :
  1 ≤ page_size →
  ∃ r, paginate_queryset queryset 1 page_size = inr r ∧
       concat (page_items queryset page_size
                 <$> seqZ 1 (pg_total_pages r))
       = rows queryset.
Proof.
  intros Hsize. eexists. split; [by apply paginate_queryset_valid|].
  simpl. set (total := Z.of_nat (length (rows queryset))).
  set (n := (total + page_size - 1) `div` page_size).
  pose proof (total_pages_bounds total page_size Hsize) as Hn.
  simpl in Hn. fold n in Hn.
  assert (Hn0 : 0 ≤ n) by (subst total; nia).
  etrans;
    [|apply (chunks_concat (rows queryset) (Z.to_nat page_size)
               (Z.to_nat n) 0); subst total; nia].
  unfold seqZ. rewrite <- list_fmap_compose.
  f_equal. apply list_fmap_ext. intros i k Hk.
  apply lookup_seq in Hk as [-> Hk]. simpl.
  unfold page_items. rewrite paginate_queryset_valid by lia. simpl.
  do 2 f_equal. nia.
Qed.

Lemma paginate_queryset_partition_witness :
  ∃ r, paginate_queryset [10; 20; 30; 40; 50; 60; 70] 1 3 = inr r ∧
       concat (page_items [10; 20; 30; 40; 50; 60; 70] 3
                 <$> seqZ 1 (pg_total_pages r))
       = rows [10; 20; 30; 40; 50; 60; 70].
Proof.
  apply (paginate_queryset_partition [10; 20; 30; 40; 50; 60; 70] 3); lia.
Defined.

(** X10: with a page from 1 and a page size from 1, a page has items exactly
    when it is at most [total_pages], and every page before the last one is
    full. *)
Theorem paginate_queryset_nonempty_iff {Q A : Type} `{!QuerySet Q A}
    (queryset : Q) (page page_size : Z) (r : Page A) :
  1 ≤ page → 1 ≤ page_size →
  paginate_queryset queryset page page_size = inr r →
  (pg_items r ≠ [] ↔ page ≤ pg_total_pages r) ∧
  (page < pg_total_pages r → Z.of_nat (length (pg_items r)) = page_size).
Proof.
  intros Hpage Hsize. rewrite paginate_queryset_valid by done.
  intros [= <-]. simpl.
  set (total := Z.of_nat (length (rows queryset))).
  set (n := (total + page_size - 1) `div` page_size).
  pose proof (total_pages_bounds total page_size Hsize) as Hn.
  simpl in Hn. fold n in Hn.
  set (items := take _ _).
  assert (Hlen : Z.of_nat (length items)
                 = Z.min page_size (Z.max 0 (total - (page - 1) * page_size))).
  { subst items total. rewrite length_take, length_drop. nia. }
  split.
  - rewrite <- length_zero_iff_nil. split; intros H; nia.
  - intros Hlt. nia.
Qed.

Lemma paginate_queryset_nonempty_iff_witness :
  (pg_items {| pg_items := [40; 50; 60]; pg_total := 7; pg_page := 2;
               pg_page_size := 3; pg_total_pages := 3 |} ≠ [] ↔ 2 ≤ 3) ∧
  (2 < 3 → Z.of_nat (length [40; 50; 60]) = 3).
Proof.
  apply (paginate_queryset_nonempty_iff [10; 20; 30; 40; 50; 60; 70] 2 3
           {| pg_items := [40; 50; 60]; pg_total := 7; pg_page := 2;
              pg_page_size := 3; pg_total_pages := 3 |});
    [lia|lia|reflexivity].
Defined.

(** ** Further properties of [calculate_test_score] *)

Lemma range_dict_severity (lo hi : Z) (s : string) :
  range_dict lo hi s !! "severity" = Some (VStr s).
Proof. reflexivity. Qed.

Lemma result_inj (t t' : Z) (s s' : pyval) :
  result t s = result t' s' → s = s'.
Proof.
  intros H. apply (f_equal (λ r : dict, r !! "severity")) in H.
  rewrite !result_severity in H. congruence.
Qed.

Ltac resolve_table :=
  repeat (rewrite resolve_severity_step by apply range_dict_well_formed;
          rewrite range_dict_matches, range_dict_severity);
  repeat case_bool_decide; reflexivity.

Lemma resolve_severity_PHQ9 (total : Z) (u : pyval) :
  resolve_severity PHQ9_ranges total u =
    inr (if bool_decide (0 ≤ total ≤ 4) then VStr "MINIMAL"
         else if bool_decide (5 ≤ total ≤ 9) then VStr "MILD"
         else if bool_decide (10 ≤ total ≤ 14) then VStr "MODERATE"
         else if bool_decide (15 ≤ total ≤ 27) then VStr "SEVERE"
         else u).
Proof.
  unfold PHQ9_ranges. resolve_table.
Qed.

Lemma resolve_severity_GAD7 (total : Z) (u : pyval) :
  resolve_severity GAD7_ranges total u =
    inr (if bool_decide (0 ≤ total ≤ 4) then VStr "MINIMAL"
         else if bool_decide (5 ≤ total ≤ 9) then VStr "MILD"
         else if bool_decide (10 ≤ total ≤ 14) then VStr "MODERATE"
         else if bool_decide (15 ≤ total ≤ 21) then VStr "SEVERE"
         else u).
Proof.
  unfold GAD7_ranges. resolve_table.
Qed.

(** The severity returned for a test type and a total. *)
Lemma calculate_test_score_severity (answers : answers_t)
    (test_type : string) (sev : string) :
  calculate_test_score answers test_type
  = inr (result (sum_values answers) (VStr sev)) ↔
  resolve_severity (ranges_for test_type) (sum_values answers)
    (VStr "UNKNOWN") = inr (VStr sev).
Proof.
  rewrite calculate_test_score_unfold.
  destruct (resolve_severity _ _ _) as [e|s]; simpl; [done|].
  split.
  - intros H. f_equal.
    apply (result_inj (sum_values answers) (sum_values answers)).
    by apply (inj inr) in H.
  - by intros [= ->].
Qed.

(** X11: the severity is ['UNKNOWN'] exactly when the test type is neither
    ['PHQ9'] nor ['GAD7'], or the total is negative, or it exceeds 27 for
    ['PHQ9'] and 21 for ['GAD7']. *)
Theorem severity_unknown_iff (answers : answers_t) (test_type : string) :
  calculate_test_score answers test_type
  = inr (result (sum_values answers) (VStr "UNKNOWN")) ↔
  (test_type = "PHQ9" ∧ ¬ 0 ≤ sum_values answers ≤ 27) ∨
  (test_type = "GAD7" ∧ ¬ 0 ≤ sum_values answers ≤ 21) ∨
  (test_type ≠ "PHQ9" ∧ test_type ≠ "GAD7").
Proof.
  rewrite calculate_test_score_severity.
  generalize (sum_values answers) as total. intros total.
  table_cases test_type; subst.
  - rewrite resolve_severity_PHQ9.
    repeat case_bool_decide; split; try done;
      try (intros _; left; split; [done|lia]);
      intros [[_ ?]|[[? _]|[? _]]]; try done; lia.
  - rewrite resolve_severity_GAD7.
    repeat case_bool_decide; split; try done;
      try (intros _; right; left; split; [done|lia]);
      intros [[? _]|[[_ ?]|[_ ?]]]; try done; lia.
  - split; [|done]. intros _. by right; right.
Qed.

(** X12: a higher total never gets a lower severity: for two submissions
    scored for the same test type with a severity of the data model, the
    one with the greater total has the greater or equal rank in
    [SEVERITY_LEVELS]. *)
Theorem severity_monotone (a b : answers_t) (test_type : string)
    (sa sb : string) (i j : nat) :
  calculate_test_score a test_type
  = inr (result (sum_values a) (VStr sa)) →
  calculate_test_score b test_type
  = inr (result (sum_values b) (VStr sb)) →
  sum_values a ≤ sum_values b →
  severity_rank sa = Some i →
  severity_rank sb = Some j →
  (i ≤ j)%nat.
Proof.
  rewrite !calculate_test_score_severity.
  generalize (sum_values a) as ta, (sum_values b) as tb. intros ta tb.
  table_cases test_type; subst;
    [rewrite !resolve_severity_PHQ9|rewrite !resolve_severity_GAD7|];
    repeat case_bool_decide;
    intros [= <-] [= <-] Hle Hi Hj;
    vm_compute in Hi, Hj; try discriminate;
    injection Hi as <-; injection Hj as <-; lia.
Qed.

Lemma severity_monotone_witness : (1 ≤ 3)%nat.
Proof.
  apply (severity_monotone [("1", 3); ("2", 3)] [("1", 3); ("2", 18)]
           "GAD7" "MILD" "SEVERE" 1 3); by_evaluation.
Defined.

(** ** Further properties of the answer validators *)

(** X13: the strict validator implies the one of the submission path: a
    submission accepted by [validate_test_answers] for the questions of a
    test is accepted, unchanged, by [validate_answers] for that test. *)
Theorem validate_test_answers_implies_validate_answers
    (t : Test) (answers : answers_t) :
  validate_test_answers answers (questions t) = inr () →
  validate_answers (Some t) answers = inr answers.
Proof.
  rewrite validate_test_answers_unfold, validate_answers_unfold.
  by destruct (decide (question_id_set (questions t)
                       ≠ answer_id_set answers)).
Qed.

Lemma validate_test_answers_implies_validate_answers_witness :
  validate_answers (Some phq9_test)
    (uniform_answers [1; 2; 3; 4; 5; 6; 7; 8; 9] 1)
  = inr (uniform_answers [1; 2; 3; 4; 5; 6; 7; 8; 9] 1).
Proof.
  apply (validate_test_answers_implies_validate_answers phq9_test
           (uniform_answers [1; 2; 3; 4; 5; 6; 7; 8; 9] 1)).
  by_evaluation.
Defined.

Lemma answer_id_set_perm (answers answers' : answers_t) :
  answers ≡ₚ answers' → answer_id_set answers = answer_id_set answers'.
Proof.
  intros Hperm. unfold answer_id_set. apply set_eq. intros k.
  rewrite !elem_of_list_to_set. by rewrite Hperm.
Qed.

Lemma check_answer_values_perm (answers answers' : answers_t)
    (qs : list Question) :
  answers ≡ₚ answers' →
  check_answer_values answers qs = inr () →
  check_answer_values answers' qs = inr ().
Proof.
  intros Hperm. rewrite !check_answer_values_inr.
  intros Hok k v q Hin. apply Hok. by rewrite Hperm.
Qed.

(** X14: the outcome of [validate_test_answers] does not depend on the order
    of the answers, up to the question named: reordering the items keeps an
    acceptance, and keeps the code of the error of a rejection. *)
Theorem validate_test_answers_order (answers answers' : answers_t)
    (qs : list Question) :
  answers ≡ₚ answers' →
  (validate_test_answers answers qs = inr () ↔
   validate_test_answers answers' qs = inr ()) ∧
  (∀ e, validate_test_answers answers qs = inl e →
        ∃ e', validate_test_answers answers' qs = inl e' ∧
              code e' = code e).
Proof.
  intros Hperm. rewrite !validate_test_answers_unfold.
  rewrite <- (answer_id_set_perm _ _ Hperm).
  destruct (decide (question_id_set qs ≠ answer_id_set answers)) as [Hne|Heq].
  - split; [done|]. intros e [= <-]. by exists incomplete_answers.
  - split.
    + split; apply check_answer_values_perm; [done|by symmetry].
    + intros e He.
      destruct (check_answer_values answers' qs) as [e'|[]] eqn:He'.
      * exists e'. split; [done|].
        apply check_answer_values_inl in He
          as (? & ? & ? & ? & ? & _ & _ & _ & _ & ->).
        apply check_answer_values_inl in He'
          as (? & ? & ? & ? & ? & _ & _ & _ & _ & ->).
        done.
      * apply (check_answer_values_perm answers' answers) in He';
          [congruence|by symmetry].
Qed.

Lemma validate_test_answers_order_witness :
  (validate_test_answers [("1", 7); ("2", 9)]
     (likert_question <$> [1; 2]) = inr () ↔
   validate_test_answers [("2", 9); ("1", 7)]
     (likert_question <$> [1; 2]) = inr ()) ∧
  (∀ e, validate_test_answers [("1", 7); ("2", 9)]
          (likert_question <$> [1; 2]) = inl e →
        ∃ e', validate_test_answers [("2", 9); ("1", 7)]
                (likert_question <$> [1; 2]) = inl e' ∧
              code e' = code e).
Proof.
  apply (validate_test_answers_order [("1", 7); ("2", 9)]
           [("2", 9); ("1", 7)] (likert_question <$> [1; 2])).
  apply perm_swap.
Defined.

(** X15: a submission accepted by [validate_test_answers] is scored with a
    total between the least and the greatest achievable sum of option
    values of the questions, for every test type. *)
Theorem validated_score_in_domain (answers : answers_t)
    (qs : list Question) (test_type : string) :
  NoDup (q_id <$> qs) →
  NoDup (answers.*1) →
  validate_test_answers answers qs = inr () →
  ∃ total sev,
    calculate_test_score answers test_type = inr (result total sev) ∧
    min_possible qs ≤ total ≤ max_possible qs.
Proof.
  intros Hndq Hnda Hvalid.
  pose proof (validated_total_in_domain _ _ Hndq Hnda Hvalid) as Hdom.
  destruct (resolve_severity_total (ranges_for test_type)
              (sum_values answers) (VStr "UNKNOWN")) as (s & Hs & _).
  { apply ranges_for_well_formed. }
  exists (sum_values answers), s. split; [|done].
  by rewrite calculate_test_score_unfold, Hs.
Qed.

Lemma validated_score_in_domain_witness :
  ∃ total sev,
    calculate_test_score (uniform_answers [1; 2; 3; 4; 5; 6; 7; 8; 9] 2)
      "PCL5" = inr (result total sev) ∧
    min_possible (questions phq9_test) ≤ total
    ≤ max_possible (questions phq9_test).
Proof.
  apply (validated_score_in_domain
           (uniform_answers [1; 2; 3; 4; 5; 6; 7; 8; 9] 2)
           (questions phq9_test) "PCL5"); by_evaluation.
Defined.
